(** * scbw.docker_utils: a shallow embedding of the match orchestrator

    The development follows [src/scbw/docker_utils.py]:

    - [Re], [Str]: the fragment of Python's [re.sub] and [str] methods
      that the module uses;
    - [xoscmounts]: cross-OS mount path normalisation;
    - [Proc]: the outside world (docker CLI, clock, file system) as an
      oracle over the history of calls, and the exception monad in which
      the effectful functions are written;
    - [launch_image], [running_containers], [stop_containers],
      [cleanup_containers], [container_exit_code], [launch_game].

    Python [str] values are modelled as [string] (a sequence of bytes, the
    UTF-8 encoding of the text).  Every character the module's regular
    expressions and separators mention is ASCII, and no byte of a
    multi-byte UTF-8 sequence is ASCII, so matching byte by byte agrees
    with matching code point by code point. *)

From Stdlib Require Import ZArith QArith Bool List Lia.
From Stdlib Require Import Strings.Ascii Strings.String Numbers.DecimalString.
From Stdlib Require Import Numbers.DecimalPos.
Import ListNotations.

Local Close Scope Q_scope.
Local Open Scope list_scope.
Local Open Scope string_scope.

(** ** Characters and [str] methods *)

Module Str.

Definition code (c : ascii) : nat := nat_of_ascii c.

(** The class [[a-z]]. *)
Definition is_lower (c : ascii) : bool :=
  (97 <=? code c)%nat && (code c <=? 122)%nat.

(** The class [[A-Z]]. *)
Definition is_upper (c : ascii) : bool :=
  (65 <=? code c)%nat && (code c <=? 90)%nat.

(** The class [[a-zA-Z]]. *)
Definition is_alpha (c : ascii) : bool := is_lower c || is_upper c.

Definition lower_char (c : ascii) : ascii :=
  if is_upper c then ascii_of_nat (code c + 32) else c.

(** [s.lower()], on ASCII letters. *)
Fixpoint lower (s : string) : string :=
  match s with
  | EmptyString => EmptyString
  | String c s' => String (lower_char c) (lower s')
  end.

(** [s.replace(old, new)] for a one-character [old]. *)
Fixpoint replace_char (old : ascii) (new : string) (s : string) : string :=
  match s with
  | EmptyString => EmptyString
  | String c s' =>
      (if Ascii.eqb c old then new else String c EmptyString)
        ++ replace_char old new s'
  end.

(** [s.split(sep)] for a one-character separator: always at least one
    field, empty fields kept. *)
Fixpoint split (sep : ascii) (s : string) : list string :=
  match s with
  | EmptyString => [EmptyString]
  | String c s' =>
      if Ascii.eqb c sep then EmptyString :: split sep s'
      else match split sep s' with
           | [] => [String c EmptyString]
           | f :: fs => String c f :: fs
           end
  end.

Fixpoint mem_char (c : ascii) (chars : string) : bool :=
  match chars with
  | EmptyString => false
  | String d chars' => Ascii.eqb c d || mem_char c chars'
  end.

Fixpoint lstrip (chars : string) (s : string) : string :=
  match s with
  | EmptyString => EmptyString
  | String c s' => if mem_char c chars then lstrip chars s' else s
  end.

Fixpoint rev_string (acc s : string) : string :=
  match s with
  | EmptyString => acc
  | String c s' => rev_string (String c acc) s'
  end.

Definition rstrip (chars : string) (s : string) : string :=
  rev_string EmptyString (lstrip chars (rev_string EmptyString s)).

(** [s.strip(chars)]. *)
Definition strip (chars : string) (s : string) : string :=
  rstrip chars (lstrip chars s).

(** The ASCII characters for which [str.isspace] holds: tab, line feed,
    vertical tab, form feed, carriage return, the four separators
    0x1c-0x1f, and space. *)
Definition whitespace : string :=
  String (ascii_of_nat 9) (String (ascii_of_nat 10) (String (ascii_of_nat 11)
  (String (ascii_of_nat 12) (String (ascii_of_nat 13) (String (ascii_of_nat 28)
  (String (ascii_of_nat 29) (String (ascii_of_nat 30) (String (ascii_of_nat 31)
  (String (ascii_of_nat 32) EmptyString))))))))).

(** [str(n)] and [f"{n}"] for an [int]. *)
Definition of_int (n : Z) : string := NilEmpty.string_of_int (Z.to_int n).

Definition is_digit (c : ascii) : bool :=
  (48 <=? code c)%nat && (code c <=? 57)%nat.

Fixpoint digits_value (acc : Z) (s : string) : option Z :=
  match s with
  | EmptyString => Some acc
  | String c s' =>
      if is_digit c
      then digits_value (10 * acc + Z.of_nat (code c - 48)) s'
      else None
  end.

(** [int(s)] on a decimal literal with an optional sign, the form in
    which docker prints an exit status; [None] stands for [ValueError]. *)
Definition to_int (s : string) : option Z :=
  match strip whitespace s with
  | EmptyString => None
  | String c s' =>
      if Ascii.eqb c "-" then
        match s' with
        | EmptyString => None
        | _ => option_map Z.opp (digits_value 0 s')
        end
      else if Ascii.eqb c "+" then
        match s' with
        | EmptyString => None
        | _ => digits_value 0 s'
        end
      else digits_value 0 (String c s')
  end.

End Str.

(** ** The fragment of [re.sub] used by the module

    Two shapes of pattern occur: [^(C)lit], a character class captured
    as group 1 and followed by a literal, anchored at the start of the
    text; and a single literal character, matched everywhere. *)

Module Re.

(** A match object: group 1 and the text that follows the match. *)
Record match_obj : Type := MkMatch { group1 : string; after : string }.

Fixpoint strip_literal (lit s : string) : option string :=
  match lit, s with
  | EmptyString, _ => Some s
  | String a lit', String b s' =>
      if Ascii.eqb a b then strip_literal lit' s' else None
  | String _ _, EmptyString => None
  end.

(** [re.match] for [(cls)lit]. *)
Definition match_start (cls : ascii -> bool) (lit : string) (s : string)
  : option match_obj :=
  match s with
  | EmptyString => None
  | String c s' =>
      if cls c then
        match strip_literal lit s' with
        | Some rest => Some (MkMatch (String c EmptyString) rest)
        | None => None
        end
      else None
  end.

(** [re.sub("^(cls)lit", repl, s)]: without [re.MULTILINE] the anchor
    matches at offset 0 only, so at most one replacement is made. *)
Definition sub_start (cls : ascii -> bool) (lit : string)
           (repl : match_obj -> string) (s : string) : string :=
  match match_start cls lit s with
  | Some m => repl m ++ after m
  | None => s
  end.

(** [re.sub(c, repl, s)] for a one-character literal pattern: every
    occurrence is replaced, left to right. *)
Definition sub_char (c : ascii) (repl : string) (s : string) : string :=
  Str.replace_char c repl s.

End Re.

(** ** [xoscmounts] *)

Definition xoscmounts (host_mount : string) : string :=
  let callback_lower_drive_letter := fun pat => Str.lower (Re.group1 pat) in
  let host_mount :=
    Re.sub_start Str.is_alpha ":" callback_lower_drive_letter host_mount in
  let host_mount :=
    Re.sub_start Str.is_lower "" (fun pat => "//" ++ Re.group1 pat) host_mount in
  let host_mount := Re.sub_char "\" "/" host_mount in
  host_mount.

(** The three rules of the specification, written from its words, to be
    compared with [xoscmounts]. *)
Module NormalizeSpec.

(** (a) a leading drive letter followed by a colon is lower-cased (the
    designator [X:] becomes the letter [x]). *)
Definition rule_a (p : string) : string :=
  match p with
  | String c (String ":" rest) =>
      if Str.is_alpha c then String (Str.lower_char c) rest else p
  | _ => p
  end.

(** (b) a leading lower-case letter is prefixed with [//]. *)
Definition rule_b (p : string) : string :=
  match p with
  | String c _ => if Str.is_lower c then "//" ++ p else p
  | EmptyString => p
  end.

Definition slash_of (c : ascii) : ascii :=
  if Ascii.eqb c "\" then "/"%char else c.

(** (c) every backslash becomes a forward slash. *)
Fixpoint rule_c (p : string) : string :=
  match p with
  | EmptyString => EmptyString
  | String c rest => String (slash_of c) (rule_c rest)
  end.

Definition normalize (p : string) : string := rule_c (rule_b (rule_a p)).

End NormalizeSpec.

(** ** The outside world and the exception monad *)

Module Proc.

(** The exceptions the module raises or lets through. *)
Inductive exn : Type :=
| GameException (msg : string)
| DockerException (msg : string)
| ContainerException (msg : string)
| RealtimeOutedException (msg : string)
| CalledProcessError (argv : list string)   (* subprocess.check_output, nonzero status *)
| ValueError                                (* int() on a malformed literal *)
| CallbackError (msg : string).             (* raised by the caller's wait_callback *)

(** One entry per call that leaves the process. *)
Inductive event : Type :=
| SubprocessCall (argv : list string)
| CheckOutput (argv : list string)
| CheckOutputShell (cmdline : string)
| Sleep (secs : Z)
| TimeTime
| Makedirs (path : string)
| FindFiles (finder dir game_name : string)
| Remove (path : string)
| VncViewer (host : string) (port : Z)
| WaitCallback
| CopyTree (src dst : string).

(** Calls made so far, oldest first. *)
Definition trace : Type := list event.

(** The world answers each call as a function of what happened before.
    [subprocess.call] returns the completion status and
    [subprocess.check_output] the captured standard output, or [None]
    on a nonzero status, already decoded; the docker executable itself
    is taken to be present, as [check_docker_requirements] establishes.
    Readings of the clock are rationals, in seconds: two readings of
    [time.time()] a few seconds apart subtract without rounding.
    [os.makedirs], [os.remove], [copy_tree] and the viewer are taken to
    succeed.  Logging is left out. *)
Record world : Type := MkWorld {
  call_status : trace -> list string -> Z;
  output_of : trace -> list string -> option string;
  shell_output_of : trace -> string -> option string;
  clock : trace -> Q;
  files_found : trace -> string -> string -> string -> list string;
  callback_result : trace -> option string
}.

Inductive outcome (A : Type) : Type :=
| Ok (a : A)
| Raise (e : exn)
| Unfinished.     (* the poll loop is still running when the fuel ends *)
Arguments Ok {A} a.
Arguments Raise {A} e.
Arguments Unfinished {A}.

Definition M (A : Type) : Type := trace -> outcome A * trace.

Definition ret {A} (a : A) : M A := fun t => (Ok a, t).
Definition raise {A} (e : exn) : M A := fun t => (Raise e, t).
Definition unfinished {A} : M A := fun t => (Unfinished, t).

Definition bind {A B} (m : M A) (k : A -> M B) : M B :=
  fun t =>
    match m t with
    | (Ok a, t') => k a t'
    | (Raise e, t') => (Raise e, t')
    | (Unfinished, t') => (Unfinished, t')
    end.

(** Record the call, answer it from the history before it. *)
Definition emit {A} (e : event) (answer : trace -> A) : M A :=
  fun t => (Ok (answer t), t ++ [e])%list.

(** [for x in xs: body(x)] *)
Fixpoint for_each {A} (xs : list A) (body : A -> M unit) : M unit :=
  match xs with
  | [] => ret tt
  | x :: xs' => bind (body x) (fun _ => for_each xs' body)
  end.

(** [[f(x) for x in xs]] *)
Fixpoint map_m {A B} (f : A -> M B) (xs : list A) : M (list B) :=
  match xs with
  | [] => ret []
  | x :: xs' =>
      bind (f x) (fun y => bind (map_m f xs') (fun ys => ret (y :: ys)))
  end.

(** [enumerate(xs)] *)
Definition enumerate {A} (xs : list A) : list (nat * A) :=
  combine (seq 0 (List.length xs)) xs.

End Proc.

Import Proc.

Notation "x <- m ;; k" := (bind m (fun x => k))
  (at level 61, m at next level, right associativity).
Notation "m ;;; k" := (bind m (fun _ => k))
  (at level 61, right associativity).

(** List concatenation ([cmd += ...]); [++] is kept for strings. *)
Notation "xs +++ ys" := (@List.app _ xs ys)
  (at level 60, right associativity).

(** ** Module constants *)

Definition DOCKER_STARCRAFT_NETWORK : string := "sc_net".
Definition APP_DIR : string := "/app".
Definition LOG_DIR : string := APP_DIR ++ "/logs".
Definition SC_DIR : string := APP_DIR ++ "/sc".
Definition BOT_DIR : string := APP_DIR ++ "/bot".
Definition MAP_DIR : string := SC_DIR ++ "/maps".
Definition BWAPI_DATA_DIR : string := SC_DIR ++ "/bwapi-data".
Definition BWAPI_DATA_BWTA_DIR : string := BWAPI_DATA_DIR ++ "/BWTA".
Definition BWAPI_DATA_BWTA2_DIR : string := BWAPI_DATA_DIR ++ "/BWTA2".
Definition BOT_DATA_WRITE_DIR : string := BWAPI_DATA_DIR ++ "/write".

Definition EXIT_CODE_REALTIME_OUTED : Z := 2.
Definition MAX_TIME_RUNNING_SINGLE_CONTAINER : Z := 20.

Definition dquote : ascii := ascii_of_nat 34.
Definition squote : ascii := ascii_of_nat 39.
Definition newline : ascii := ascii_of_nat 10.
Definition cr : ascii := ascii_of_nat 13.
Definition tab : ascii := ascii_of_nat 9.

(** ** Players and launch parameters

    [scbw.player] is imported by the module; the records keep the
    attributes that [docker_utils] reads. *)

Record bot_info : Type := MkBot {
  bot_dir : string;
  bot_basefilename : string;
  bwapi_version : string;
  javaDebugPort : option Z;
  write_dir : string;
  read_dir : string
}.

Inductive player_kind : Type :=
| HumanPlayer
| BotPlayer (b : bot_info).

Record Player : Type := MkPlayer {
  name : string;
  race_value : string;
  player_str : string;        (* str(player), used in messages *)
  kind : player_kind
}.

Record launch_params : Type := MkParams {
  headless : bool;
  game_name : string;
  map_name : string;
  game_type_value : string;
  game_speed : Z;
  timeout : option Z;
  hide_names : bool;
  drop_players : bool;
  log_dir : string;
  params_bot_dir : string;
  map_dir : string;
  bwapi_data_bwta_dir : string;
  bwapi_data_bwta2_dir : string;
  vnc_base_port : Z;
  vnc_host : string;
  docker_image : string;
  docker_opts : list string
}.

(** ** Building the launch command *)

(** [x in xs] for a list of strings. *)
Definition str_in (x : string) (xs : list string) : bool :=
  existsb (String.eqb x) xs.

(** [d[key] = value] on an insertion-ordered dict. *)
Fixpoint dict_set (key value : string) (d : list (string * string))
  : list (string * string) :=
  match d with
  | [] => [(key, value)]
  | (k, v) :: d' =>
      if String.eqb k key then (k, value) :: d'
      else (k, v) :: dict_set key value d'
  end.

Definition flag (b : bool) : string := if b then "1" else "0".

Definition is_bot (p : Player) : bool :=
  match kind p with BotPlayer _ => true | HumanPlayer => false end.

Definition container_name_of (lp : launch_params) (nth_player : Z) (player : Player)
  : string :=
  game_name lp ++ "_" ++ Str.of_int nth_player ++ "_"
    ++ Str.replace_char " " "_" (name player).

Definition bot_data_write_dir (lp : launch_params) (nth_player : Z) (b : bot_info)
  : string :=
  bot_dir b ++ "/write/" ++ game_name lp ++ "_" ++ Str.of_int nth_player.

(** The [env] dict of [launch_image], values already formatted. *)
Definition launch_env (player : Player) (nth_player num_players : Z)
           (lp : launch_params) : list (string * string) :=
  let env :=
    [ ("PLAYER_NAME", name player);
      ("PLAYER_RACE", race_value player);
      ("NTH_PLAYER", Str.of_int nth_player);
      ("NUM_PLAYERS", Str.of_int num_players);
      ("GAME_NAME", game_name lp);
      ("MAP_NAME", "/app/sc/maps/" ++ map_name lp);
      ("GAME_TYPE", game_type_value lp);
      ("SPEED_OVERRIDE", Str.of_int (game_speed lp));
      ("HIDE_NAMES", flag (hide_names lp));
      ("DROP_PLAYERS", flag (drop_players lp));
      ("TM_LOG_RESULTS",
        "../logs/" ++ game_name lp ++ "_" ++ Str.of_int nth_player ++ "_results.json");
      ("TM_LOG_FRAMETIMES",
        "../logs/" ++ game_name lp ++ "_" ++ Str.of_int nth_player ++ "_frames.csv");
      ("TM_SPEED_OVERRIDE", Str.of_int (game_speed lp));
      ("TM_ALLOW_USER_INPUT", flag (negb (is_bot player)));
      ("EXIT_CODE_REALTIME_OUTED", Str.of_int EXIT_CODE_REALTIME_OUTED);
      ("JAVA_DEBUG", "0") ] in
  let env :=
    match kind player with
    | BotPlayer b =>
        let env := dict_set "BOT_FILE" (bot_basefilename b) env in
        let env := dict_set "BOT_BWAPI" (bwapi_version b) env in
        match javaDebugPort b with
        | Some port =>
            let env := dict_set "JAVA_DEBUG" "1" env in
            dict_set "JAVA_DEBUG_PORT" (Str.of_int port) env
        | None => env
        end
    | HumanPlayer => env
    end in
  match timeout lp with
  | Some t => dict_set "PLAY_TIMEOUT" (Str.of_int t) env
  | None => env
  end.

(** The argument vector [cmd] that [launch_image] hands to
    [subprocess.call], in the order the function extends it. *)
Definition launch_cmd (player : Player) (nth_player num_players : Z)
           (lp : launch_params) : list string :=
  let container_name := container_name_of lp nth_player player in
  let cmd :=
    [ "docker"; "run";
      "-d";
      "--privileged";
      "--name"; container_name;
      "--volume"; xoscmounts (log_dir lp) ++ ":" ++ LOG_DIR ++ ":rw";
      "--volume"; xoscmounts (map_dir lp) ++ ":" ++ MAP_DIR ++ ":rw";
      "--volume"; xoscmounts (bwapi_data_bwta_dir lp) ++ ":" ++ BWAPI_DATA_BWTA_DIR ++ ":rw";
      "--volume"; xoscmounts (bwapi_data_bwta2_dir lp) ++ ":" ++ BWAPI_DATA_BWTA2_DIR ++ ":rw"
    ] in
  let cmd :=
    match docker_opts lp with
    | [] => cmd
    | _ :: _ => cmd +++ docker_opts lp
    end in
  let cmd :=
    if negb (str_in "--net" (docker_opts lp))
    then cmd +++ ["--net"; DOCKER_STARCRAFT_NETWORK]
    else cmd in
  let cmd :=
    if negb (headless lp)
    then cmd +++ ["-p"; Str.of_int (vnc_base_port lp + nth_player) ++ ":5900"]
    else cmd in
  let cmd :=
    match kind player with
    | BotPlayer b =>
        let cmd :=
          cmd +++ ["--volume";
                   xoscmounts (bot_data_write_dir lp nth_player b)
                     ++ ":" ++ BOT_DATA_WRITE_DIR ++ ":rw"] in
        let cmd :=
          cmd +++ ["--volume"; xoscmounts (bot_dir b) ++ ":" ++ BOT_DIR ++ ":ro"] in
        match javaDebugPort b with
        | Some port =>
            cmd +++ ["-p"; Str.of_int port ++ ":" ++ Str.of_int port]
        | None => cmd
        end
    | HumanPlayer => cmd
    end in
  let cmd :=
    cmd +++ flat_map (fun kv => ["-e"; fst kv ++ "=" ++ snd kv])
                     (launch_env player nth_player num_players lp) in
  let cmd := cmd +++ [docker_image lp] in
  let cmd :=
    if is_bot player then cmd +++ ["/app/play_bot.sh"]
    else cmd +++ ["/app/play_human.sh"] in
  let is_server := (nth_player =? 0)%Z in
  let entrypoint_opts :=
    if negb (headless lp) then ["--headful"]
    else
      ["--game"; game_name lp;
       "--name"; name player;
       "--race"; race_value player;
       "--lan"]
      +++ (if is_server
           then ["--host"; "--map"; "/app/sc/maps/" ++ map_name lp]
           else ["--join"]) in
  cmd +++ entrypoint_opts.

(** ** The effectful functions *)

Section Runtime.

Variable w : world.

(** [subprocess.call(argv)] *)
Definition subprocess_call (argv : list string) : M Z :=
  emit (SubprocessCall argv) (fun t => call_status w t argv).

(** [subprocess.check_output(argv)] *)
Definition subprocess_check_output (argv : list string) : M string :=
  out <- emit (CheckOutput argv) (fun t => output_of w t argv) ;;
  match out with
  | Some s => ret s
  | None => raise (CalledProcessError argv)
  end.

(** [subprocess.check_output(cmdline, shell=True)] *)
Definition subprocess_check_output_shell (cmdline : string) : M string :=
  out <- emit (CheckOutputShell cmdline) (fun t => shell_output_of w t cmdline) ;;
  match out with
  | Some s => ret s
  | None => raise (CalledProcessError [cmdline])
  end.

Definition time_sleep (secs : Z) : M unit := emit (Sleep secs) (fun _ => tt).
Definition time_time : M Q := emit TimeTime (clock w).
Definition os_makedirs (path : string) : M unit := emit (Makedirs path) (fun _ => tt).
Definition os_remove (path : string) : M unit := emit (Remove path) (fun _ => tt).
Definition copy_tree (src dst : string) : M unit := emit (CopyTree src dst) (fun _ => tt).
Definition launch_vnc_viewer (host : string) (port : Z) : M unit :=
  emit (VncViewer host port) (fun _ => tt).
Definition find_files (finder dir game : string) : M (list string) :=
  emit (FindFiles finder dir game) (fun t => files_found w t finder dir game).

(** The caller's [wait_callback()]; whatever it raises is kept apart
    from the module's own exceptions as a [CallbackError]. *)
Definition wait_callback : M unit :=
  r <- emit WaitCallback (callback_result w) ;;
  match r with
  | None => ret tt
  | Some msg => raise (CallbackError msg)
  end.

(** [launch_image]: the write directory of a bot is created while the
    command is being assembled, before the call. *)
Definition launch_image (player : Player) (nth_player num_players : Z)
           (lp : launch_params) : M unit :=
  let container_name := container_name_of lp nth_player player in
  match kind player with
  | BotPlayer b => os_makedirs (bot_data_write_dir lp nth_player b)
  | HumanPlayer => ret tt
  end ;;;
  let cmd := launch_cmd player nth_player num_players lp in
  code <- subprocess_call cmd ;;
  if (code =? 0)%Z then
    out <- subprocess_check_output
             ["docker"; "ps"; "-f"; "name=" ++ container_name; "-q"] ;;
    let container_id :=
      Str.strip (String squote (String dquote (String newline EmptyString))) out in
    ret tt
  else
    raise (DockerException
             ("could not launch " ++ player_str player
                ++ " in container " ++ container_name)).

Definition running_containers (name_filter : string) : M (list string) :=
  out <- subprocess_check_output_shell
           ("docker ps -f " ++ String dquote ("name=" ++ name_filter)
              ++ String dquote " -q") ;;
  let containers :=
    map (Str.strip Str.whitespace)
        (filter (fun container => negb (String.eqb container ""))
                (Str.split newline out)) in
  ret containers.

Definition stop_containers (containers : list string) : M unit :=
  if negb (Nat.eqb (List.length containers) 0) then
    subprocess_call ("docker" :: "stop" :: containers) ;;; ret tt
  else ret tt.

Definition cleanup_containers (containers : list string) : M unit :=
  if negb (Nat.eqb (List.length containers) 0) then
    subprocess_call ("docker" :: "rm" :: containers) ;;; ret tt
  else ret tt.

Definition container_exit_code (container : string) : M Z :=
  out <- subprocess_check_output
           ["docker"; "inspect"; container; "--format='{{.State.ExitCode}}'"] ;;
  match Str.to_int
          (Str.strip (String newline (String cr (String tab
                        (String " " (String squote (String dquote EmptyString))))))
                     out) with
  | Some n => ret n
  | None => raise ValueError
  end.

Definition lingering_message : string :=
  "One lingering container has been found after single container timeout ("
    ++ Str.of_int MAX_TIME_RUNNING_SINGLE_CONTAINER
    ++ " sec), the game probably crashed.".

(** [a > b] on clock readings. *)
Definition Qgtb (a b : Q) : bool := negb (Qle_bool a b).

(** The [while True] loop of [launch_game]; the value returned on
    [break] is the last value bound to [containers]. *)
Fixpoint poll_loop (fuel : nat) (game : string) (running_time : Q)
  : M (list string) :=
  match fuel with
  | O => unfinished
  | S fuel' =>
      containers <- running_containers game ;;
      if Nat.eqb (List.length containers) 0 then ret containers
      else
        running_time <-
          (if Nat.leb 2 (List.length containers) then time_time
           else ret running_time) ;;
        lingering <-
          (if Nat.eqb (List.length containers) 1 then
             now <- time_time ;;
             ret (Qgtb (now - running_time)%Q
                       (inject_Z MAX_TIME_RUNNING_SINGLE_CONTAINER))
           else ret false) ;;
        if (lingering : bool) then raise (ContainerException lingering_message)
        else
          wait_callback ;;;
          poll_loop fuel' game running_time
  end.

Definition realtime_message : string :=
  "Some of the game containers has realtime outed.".

Definition error_exit_message : string :=
  "Some of the game containers has finished with error exit code.".

(** The two checks on [exit_codes] at the end of [launch_game]:
    [Some e] when [e] is raised. *)
Definition exit_code_error (exit_codes : list Z) : option exn :=
  if existsb (fun exit_code => (exit_code =? EXIT_CODE_REALTIME_OUTED)%Z) exit_codes
  then Some (RealtimeOutedException realtime_message)
  else if existsb (fun exit_code => (exit_code =? 1)%Z) exit_codes
  then Some (ContainerException error_exit_message)
  else None.

Definition premature_message : string :=
  "Some containers exited prematurely, please check logs".

(** The viewers opened in headful mode, one per shown player. *)
Definition launch_viewers (players : list Player) (lp : launch_params)
           (show_all : bool) : M unit :=
  if negb (headless lp) then
    for_each (enumerate (if show_all then players else firstn 1 players))
             (fun ip =>
                let port := (vnc_base_port lp + Z.of_nat (fst ip))%Z in
                let host := vnc_host lp in
                launch_vnc_viewer host port)
  else ret tt.

(** [launch_game] once the launch has been checked: viewers, the poll
    loop, exit codes, removal, classification, bot files. *)
Definition await_game (fuel : nat) (players : list Player) (lp : launch_params)
           (show_all read_overwrite : bool) (start_containers : list string)
  : M unit :=
  launch_viewers players lp show_all ;;;
  running_time <- time_time ;;
  containers <- poll_loop fuel (game_name lp) running_time ;;
  exit_codes <- map_m container_exit_code containers ;;
  cleanup_containers start_containers ;;;
  match exit_code_error exit_codes with
  | Some e => raise e
  | None =>
      if read_overwrite then
        for_each (enumerate players)
                 (fun np =>
                    match kind (snd np) with
                    | BotPlayer b =>
                        copy_tree
                          (write_dir b ++ "/" ++ game_name lp ++ "_"
                             ++ Str.of_int (Z.of_nat (fst np)))
                          (read_dir b)
                    | HumanPlayer => ret tt
                    end)
      else ret tt
  end.

(** [launch_game] from the settle delay on: what runs once every
    player's unit has been launched. *)
Definition monitor_game (fuel : nat) (players : list Player) (lp : launch_params)
           (show_all read_overwrite : bool) : M unit :=
  time_sleep 1 ;;;
  start_containers <- running_containers (game_name lp) ;;
  if negb (Nat.eqb (List.length start_containers) (List.length players))
  then raise (DockerException premature_message)
  else await_game fuel players lp show_all read_overwrite start_containers.

(** The launches of [launch_game], in player order. *)
Definition launch_all (players : list Player) (lp : launch_params) : M unit :=
  for_each (enumerate players)
           (fun ip =>
              launch_image (snd ip) (Z.of_nat (fst ip))
                           (Z.of_nat (List.length players)) lp).

Definition launch_game (fuel : nat) (players : list Player) (lp : launch_params)
           (show_all read_overwrite : bool) : M unit :=
  if Nat.eqb (List.length players) 0
  then raise (GameException "At least one player must be specified")
  else
    existing_files <-
      (logs <- find_files "find_logs" (log_dir lp) (game_name lp) ;;
       replays <- find_files "find_replays" (map_dir lp) (game_name lp) ;;
       results <- find_files "find_results" (log_dir lp) (game_name lp) ;;
       frames <- find_files "find_frames" (log_dir lp) (game_name lp) ;;
       ret (logs +++ replays +++ results +++ frames)) ;;
    for_each existing_files os_remove ;;;
    launch_all players lp ;;;
    monitor_game fuel players lp show_all read_overwrite.

End Runtime.

(** ** Reading traces *)

Definition listing_command (game : string) : string :=
  "docker ps -f " ++ String dquote ("name=" ++ game) ++ String dquote " -q".

(** The unit names in the output of a listing, as [running_containers]
    reads them. *)
Definition units_of (out : string) : list string :=
  map (Str.strip Str.whitespace)
      (filter (fun container => negb (String.eqb container ""))
              (Str.split newline out)).

Definition docker_argv (sub : string) (argv : list string) : bool :=
  match argv with
  | a :: b :: _ => String.eqb a "docker" && String.eqb b sub
  | _ => false
  end.

(** An exit code inspection, [docker inspect ...]. *)
Definition is_inspect (e : event) : bool :=
  match e with
  | CheckOutput argv => docker_argv "inspect" argv
  | _ => false
  end.

(** A removal, [docker rm ...]. *)
Definition is_rm (e : event) : bool :=
  match e with
  | SubprocessCall argv => docker_argv "rm" argv
  | _ => false
  end.

(** Neither an inspection nor a removal. *)
Definition quiet (e : event) : Prop := is_inspect e = false /\ is_rm e = false.

(** The lookup by name that follows a successful start. *)
Definition lookup_command (lp : launch_params) (nth_player : Z) (player : Player)
  : list string :=
  ["docker"; "ps"; "-f"; "name=" ++ container_name_of lp nth_player player; "-q"].

(** The trace at which [launch_image], started at [t], issues the
    create+start call. *)
Definition start_entry (t : trace) (lp : launch_params) (nth_player : Z)
           (player : Player) : trace :=
  match kind player with
  | BotPlayer b => t +++ [Makedirs (bot_data_write_dir lp nth_player b)]
  | HumanPlayer => t
  end.

Definition launch_failure_message (lp : launch_params) (nth_player : Z)
           (player : Player) : string :=
  "could not launch " ++ player_str player ++ " in container "
    ++ container_name_of lp nth_player player.

(** Any exception but [DockerException]. *)
Definition not_docker (e : exn) : Prop := forall msg, e <> DockerException msg.

(** The network option that [launch_image] computes, given the extra
    runtime options. *)
Definition computed_net (opts : list string) : list string :=
  if str_in "--net" opts then [] else ["--net"; DOCKER_STARCRAFT_NETWORK].

(** The viewer calls of [launch_viewers]. *)
Definition viewer_events (players : list Player) (lp : launch_params)
           (show_all : bool) : list event :=
  if negb (headless lp) then
    map (fun ip => VncViewer (vnc_host lp) (vnc_base_port lp + Z.of_nat (fst ip)))
        (enumerate (if show_all then players else firstn 1 players))
  else [].

(** The trace at which [monitor_game], started at [t], enters the poll
    loop and takes its first clock reading. *)
Definition loop_entry (t : trace) (players : list Player) (lp : launch_params)
           (show_all : bool) : trace :=
  t +++ [Sleep 1; CheckOutputShell (listing_command (game_name lp))]
    +++ viewer_events players lp show_all.

(** [launch_params] with other extra runtime options. *)
Definition with_docker_opts (lp : launch_params) (opts : list string)
  : launch_params :=
  MkParams (headless lp) (game_name lp) (map_name lp) (game_type_value lp)
           (game_speed lp) (timeout lp) (hide_names lp) (drop_players lp)
           (log_dir lp) (params_bot_dir lp) (map_dir lp)
           (bwapi_data_bwta_dir lp) (bwapi_data_bwta2_dir lp)
           (vnc_base_port lp) (vnc_host lp) (docker_image lp) opts.

(** The part of [cmd] that precedes the extra runtime options. *)
Definition cmd_head (player : Player) (nth_player : Z) (lp : launch_params)
  : list string :=
  [ "docker"; "run"; "-d"; "--privileged";
    "--name"; container_name_of lp nth_player player;
    "--volume"; xoscmounts (log_dir lp) ++ ":" ++ LOG_DIR ++ ":rw";
    "--volume"; xoscmounts (map_dir lp) ++ ":" ++ MAP_DIR ++ ":rw";
    "--volume"; xoscmounts (bwapi_data_bwta_dir lp) ++ ":" ++ BWAPI_DATA_BWTA_DIR ++ ":rw";
    "--volume"; xoscmounts (bwapi_data_bwta2_dir lp) ++ ":" ++ BWAPI_DATA_BWTA2_DIR ++ ":rw" ].

(** What a computation may add to the trace ([P]), return ([Q]) and
    raise ([E]). *)
Definition triple {A} (P : event -> Prop) (Q : A -> Prop) (E : exn -> Prop)
           (m : M A) : Prop :=
  forall t r t',
    m t = (r, t') ->
    (exists evs, t' = t +++ evs /\ Forall P evs)
    /\ match r with
       | Ok a => Q a
       | Raise e => E e
       | Unfinished => True
       end.

(** Not an exit code inspection. *)
Definition no_inspect (e : event) : Prop := is_inspect e = false.

(** Any exception but the lingering-unit error. *)
Definition not_lingering (e : exn) : Prop :=
  e <> ContainerException lingering_message.

(** Whenever the computation raises the lingering-unit error, the last
    two calls it has made are a listing of the units of [game] and a
    reading of the clock. *)
Definition raised_at_poll {A} (game : string) (m : M A) : Prop :=
  forall t t',
    m t = (Raise (ContainerException lingering_message), t') ->
    exists evs,
      t' = t +++ evs +++ [CheckOutputShell (listing_command game); TimeTime].

(** Whenever the computation raises, it has made no inspection and no
    removal. *)
Definition raises_quietly {A} (m : M A) : Prop :=
  forall t e t',
    m t = (Raise e, t') -> exists evs, t' = t +++ evs /\ Forall quiet evs.

(** ** Scenarios: scripted runtimes *)

Module Scenario.

Definition is_listing (e : event) : bool :=
  match e with CheckOutputShell _ => true | _ => false end.

(** How many listings have been made so far. *)
Definition listings (t : trace) : nat := List.length (filter is_listing t).

(** One id per line, as [docker ps -q] prints them. *)
Definition lines (ids : list string) : string :=
  fold_right (fun i acc => i ++ String newline acc) "" ids.

(** A runtime in which every [docker run] completes with [status],
    the [n]-th listing shows [listing n], a lookup by name prints
    [lookup], inspecting the exit code of any unit prints
    [exit_status], and the caller's callback returns. *)
Definition scripted (status : Z) (listing : nat -> list string)
           (lookup exit_status : string) (now : trace -> Q) : world :=
  MkWorld (fun _ _ => status)
          (fun _ argv =>
             if docker_argv "inspect" argv then Some exit_status
             else Some lookup)
          (fun t _ => Some (lines (listing (listings t))))
          now
          (fun _ _ _ _ => [])
          (fun _ => None).

Definition human (n : string) : Player := MkPlayer n "T" ("human:" ++ n) HumanPlayer.

Definition alice : Player := human "Alice".
Definition bob : Player := human "Bob".

Definition m1 : launch_params :=
  MkParams true "m1" "sscai/(2)Benzene.scx" "FREE_FOR_ALL" 0 None false false
           "/tmp/logs" "/tmp/bots" "/tmp/maps" "/tmp/bwta" "/tmp/bwta2"
           5900 "localhost" "starcraft:game" [].

(** The clock stands at 0 for the first 30 calls and at 100 afterwards. *)
Definition late_clock (t : trace) : Q :=
  if Nat.leb 30 (List.length t) then inject_Z 100 else inject_Z 0.

(** The exit status as [docker inspect --format='...'] prints it. *)
Definition printed_status (n : string) : string :=
  String squote (n ++ String squote (String newline "")).

(** Both units run for the launch check and one poll, then both are
    gone; each exited with the realtime-out code 2. *)
Definition realtime_out : world :=
  scripted 0 (fun n => if Nat.ltb n 2 then ["aaa"; "bbb"] else [])
           (lines ["aaa"]) (printed_status "2") (fun _ => inject_Z 0).

(** Two units at the launch check and at the first poll, then unit
    [bbb] alone, for good. *)
Definition orphan : world :=
  scripted 0 (fun n => if Nat.ltb n 2 then ["aaa"; "bbb"] else ["bbb"])
           (lines ["aaa"]) (printed_status "0") late_clock.


(** [docker run] completes with status 0, and the lookup by name then
    prints nothing: no unit of that name is running. *)
Definition not_found : world :=
  scripted 0 (fun _ => []) "" (printed_status "0") (fun _ => inject_Z 0).

(** The launch check sees one unit only. *)
Definition one_missing : world :=
  scripted 0 (fun _ => ["aaa"]) (lines ["aaa"]) (printed_status "0")
           (fun _ => inject_Z 0).

End Scenario.


(** ** The rest of the module: image removal and docker-machine *)

(** The outcome of a function that may end the process with
    [sys.exit(status)]. *)
Inductive exiting (A : Type) : Type :=
| Finished (r : outcome A)
| SysExit (status : Z).
Arguments Finished {A} r.
Arguments SysExit {A} status.

(** The argument vector that [subprocess] runs for a [shell=True]
    command line (POSIX). *)
Definition shell_argv (cmdline : string) : list string :=
  ["/bin/sh"; "-c"; cmdline].

Section Tools.

Variable w : world.

(** The module's [check_output], as [remove_game_image] calls it (one
    command line, [shell=True]): [CalledProcessError] becomes
    [sys.exit(1)]; the message printed first is left out. *)
Definition check_output (cmdline : string) (t : trace) : exiting string * trace :=
  match subprocess_check_output_shell w cmdline t with
  | (Raise (CalledProcessError _), t') => (SysExit 1, t')
  | (r, t') => (Finished r, t')
  end.

(** The module's [call], as [remove_game_image] calls it: a nonzero
    status becomes [sys.exit(1)]. *)
Definition call (cmdline : string) (t : trace) : exiting unit * trace :=
  match subprocess_call w (shell_argv cmdline) t with
  | (Ok code, t') =>
      if negb (code =? 0)%Z then (SysExit 1, t') else (Finished (Ok tt), t')
  | (Raise e, t') => (Finished (Raise e), t')
  | (Unfinished, t') => (Finished Unfinished, t')
  end.

Definition images_command (image_name : string) : string :=
  "docker images " ++ image_name ++ " -q".

Definition rmi_command (image_name : string) : string :=
  "docker rmi --force " ++ image_name.

Definition remove_game_image (image_name : string) (t : trace)
  : exiting unit * trace :=
  match check_output (images_command image_name) t with
  | (Finished (Ok has_image), t') =>
      if negb (String.eqb has_image "")
      then call (rmi_command image_name) t'
      else (Finished (Ok tt), t')
  | (Finished (Raise e), t') => (Finished (Raise e), t')
  | (Finished Unfinished, t') => (Finished Unfinished, t')
  | (SysExit status, t') => (SysExit status, t')
  end.

(** [check_dockermachine]: any exception of the call is caught (a
    missing executable included, for which the world answers [None] as
    well); the version text is only logged. *)
Definition check_dockermachine (t : trace) : bool * trace :=
  match subprocess_check_output w ["docker-machine"; "version"] t with
  | (Ok out, t') => (true, t')
  | (_, t') => (false, t')
  end.

Definition dockermachine_ip (t : trace) : option string * trace :=
  let (present, t1) := check_dockermachine t in
  if negb present then (None, t1)
  else
    match subprocess_check_output w ["docker-machine"; "ip"] t1 with
    | (Ok out, t') => (Some (Str.strip Str.whitespace out), t')
    | (_, t') => (None, t')
    end.

End Tools.

(** ** Reading strings, dicts and traces *)

(** Every character of [s] satisfies [f]. *)
Fixpoint all_chars (f : ascii -> bool) (s : string) : bool :=
  match s with
  | EmptyString => true
  | String c s' => f c && all_chars f s'
  end.

(** [s] begins with a character of [chars]. *)
Definition starts_in (chars : string) (s : string) : bool :=
  match s with
  | EmptyString => false
  | String c _ => Str.mem_char c chars
  end.

(** [s] ends with a character of [chars]. *)
Definition ends_in (chars : string) (s : string) : bool :=
  starts_in chars (Str.rev_string EmptyString s).

(** [p] begins with a lower-case letter. *)
Definition starts_lower (p : string) : bool :=
  match p with
  | EmptyString => false
  | String c _ => Str.is_lower c
  end.

(** [p] begins with a drive designator, a letter and a colon. *)
Definition drive_prefixed (p : string) : bool :=
  match p with
  | String c (String d _) => Str.is_alpha c && Ascii.eqb d ":"
  | _ => false
  end.

(** The number that the digits of [d] denote after the digits already
    read, which denote [acc]. *)
Fixpoint decimal_value (d : Decimal.uint) (acc : Z) : Z :=
  match d with
  | Decimal.Nil => acc
  | Decimal.D0 d => decimal_value d (10 * acc + 0)
  | Decimal.D1 d => decimal_value d (10 * acc + 1)
  | Decimal.D2 d => decimal_value d (10 * acc + 2)
  | Decimal.D3 d => decimal_value d (10 * acc + 3)
  | Decimal.D4 d => decimal_value d (10 * acc + 4)
  | Decimal.D5 d => decimal_value d (10 * acc + 5)
  | Decimal.D6 d => decimal_value d (10 * acc + 6)
  | Decimal.D7 d => decimal_value d (10 * acc + 7)
  | Decimal.D8 d => decimal_value d (10 * acc + 8)
  | Decimal.D9 d => decimal_value d (10 * acc + 9)
  end.

(** A character of a printed integer: a digit or the minus sign. *)
Definition is_int_char (c : ascii) : bool := Str.is_digit c || Ascii.eqb c "-".

(** The characters that [container_exit_code] strips. *)
Definition exit_code_padding : string :=
  String newline (String cr (String tab
    (String " " (String squote (String dquote EmptyString))))).

(** [d.get(key)] on an insertion-ordered dict. *)
Fixpoint dict_get (key : string) (d : list (string * string)) : option string :=
  match d with
  | [] => None
  | (k, v) :: d' => if String.eqb k key then Some v else dict_get key d'
  end.

(** The calls of one successful [launch_image]. *)
Definition launch_events (lp : launch_params) (num_players : nat)
           (ip : nat * Player) : list event :=
  start_entry [] lp (Z.of_nat (fst ip)) (snd ip)
    +++ [SubprocessCall
           (launch_cmd (snd ip) (Z.of_nat (fst ip)) (Z.of_nat num_players) lp);
         CheckOutput (lookup_command lp (Z.of_nat (fst ip)) (snd ip))].

(** The calls of a [launch_image] whose create+start call fails. *)
Definition failed_start_events (lp : launch_params) (num_players : nat)
           (ip : nat * Player) : list event :=
  start_entry [] lp (Z.of_nat (fst ip)) (snd ip)
    +++ [SubprocessCall
           (launch_cmd (snd ip) (Z.of_nat (fst ip)) (Z.of_nat num_players) lp)].

(** The removal that [cleanup_containers] makes. *)
Definition removal_events (units : list string) : list event :=
  match units with
  | [] => []
  | _ :: _ => [SubprocessCall ("docker" :: "rm" :: units)]
  end.

(** The copies of bot files that end a match with [read_overwrite]. *)
Definition copy_events (players : list Player) (lp : launch_params)
  : list event :=
  flat_map (fun np =>
              match kind (snd np) with
              | BotPlayer b =>
                  [CopyTree (write_dir b ++ "/" ++ game_name lp ++ "_"
                               ++ Str.of_int (Z.of_nat (fst np)))
                            (read_dir b)]
              | HumanPlayer => []
              end)
           (enumerate players).

(** A runtime in which two units stay listed. *)
Definition two_units_forever : world :=
  Scenario.scripted 0 (fun _ => ["aaa"; "bbb"]) (Scenario.lines ["aaa"])
                    (Scenario.printed_status "0") Scenario.late_clock.

(** A bot with a debugger port. *)
Definition debug_bot : Player :=
  MkPlayer "Deep Thought" "Z" "bot:Deep Thought"
           (BotPlayer (MkBot "/bots/dt" "dt.jar" "420" (Some 5005%Z)
                             "/bots/dt/write" "/bots/dt/read")).

(** The exit code inspection of [container_exit_code]. *)
Definition inspect_command (container : string) : list string :=
  ["docker"; "inspect"; container; "--format='{{.State.ExitCode}}'"].

(** A unit id as [docker ps -q] prints it: not empty, no white space. *)
Definition is_unit_id (id : string) : bool :=
  negb (String.eqb id "")
  && all_chars (fun c => negb (Str.mem_char c Str.whitespace)) id.

(** [mid] occurs in [l] as a run of consecutive elements. *)
Definition contains_run {A} (mid l : list A) : Prop :=
  exists front back, l = front +++ mid +++ back.

(** The debugger port of a player, if it is a bot that has one. *)
Definition debug_port_of (player : Player) : option Z :=
  match kind player with
  | BotPlayer b => javaDebugPort b
  | HumanPlayer => None
  end.

(** The bot attributes of a player, if it is a bot. *)
Definition bot_of (player : Player) : option bot_info :=
  match kind player with
  | BotPlayer b => Some b
  | HumanPlayer => None
  end.

(** A runtime in which the first create+start call completes with
    status 0 and every later one with status 1. *)
Definition second_start_fails : world :=
  MkWorld (fun t _ => if Nat.ltb (List.length t) 2 then 0%Z else 1%Z)
          (fun _ _ => Some (Scenario.lines ["aaa"]))
          (fun _ _ => Some (Scenario.lines ["aaa"]))
          (fun _ => inject_Z 0)
          (fun _ _ _ _ => [])
          (fun _ => None).

(** The calls of one poll that sees two or more units and lets the
    caller wait. *)
Definition poll_events (game : string) : list event :=
  [CheckOutputShell (listing_command game); TimeTime; WaitCallback].

(** A runtime in which an earlier match of the same name left a log
    and a replay behind, and the launch check sees one unit. *)
Definition with_stale_files : world :=
  MkWorld (fun _ _ => 0%Z)
          (fun _ _ => Some (Scenario.lines ["aaa"]))
          (fun _ _ => Some (Scenario.lines ["aaa"]))
          (fun _ => inject_Z 0)
          (fun _ finder _ _ =>
             if String.eqb finder "find_logs" then ["/tmp/logs/m1_0.log"]
             else if String.eqb finder "find_replays" then ["/tmp/maps/m1.rep"]
             else [])
          (fun _ => None).

(** * Properties *)

(** ** The model on concrete inputs *)

Example units_of_two_lines :
  units_of (Scenario.lines ["aaa"; "bbb"]) = ["aaa"; "bbb"].
Proof. reflexivity. Qed.

Example units_of_no_line : units_of "" = [].
Proof. reflexivity. Qed.

Example exit_code_as_printed :
  fst (container_exit_code Scenario.realtime_out "aaa" []) = Ok 2%Z.
Proof. reflexivity. Qed.

Example xoscmounts_posix_path : xoscmounts "/home/bot/logs" = "/home/bot/logs".
Proof. reflexivity. Qed.

Example xoscmounts_relative_path : xoscmounts "logs\m1" = "//logs/m1".
Proof. reflexivity. Qed.

Example network_by_default :
  str_in DOCKER_STARCRAFT_NETWORK
         (launch_cmd Scenario.alice 0 2 Scenario.m1) = true.
Proof. reflexivity. Qed.

Example network_overridden :
  str_in DOCKER_STARCRAFT_NETWORK
         (launch_cmd Scenario.alice 0 2
                     (with_docker_opts Scenario.m1 ["--net"; "host"])) = false.
Proof. reflexivity. Qed.

(** ** Mount path normalisation *)

Section Normalisation.

Import NormalizeSpec.

Lemma lower_char_is_lower (c : ascii) :
  Str.is_alpha c = true -> Str.is_lower (Str.lower_char c) = true.
Proof.
  destruct c as [[] [] [] [] [] [] [] []]; vm_compute; congruence.
Qed.

(** [rule_a] written with a boolean test on the second character. *)
Lemma rule_a_cases (c : ascii) (p : string) :
  rule_a (String c p)
  = match p with
    | String d rest =>
        if Ascii.eqb d ":" && Str.is_alpha c
        then String (Str.lower_char c) rest
        else String c p
    | EmptyString => String c p
    end.
Proof.
  destruct p as [|d rest]; [reflexivity|].
  destruct (Ascii.eqb_spec d ":") as [->|Hd]; [reflexivity|].
  simpl. destruct d as [[] [] [] [] [] [] [] []]; try reflexivity.
  now elim Hd.
Qed.

Lemma sub_start_drive (p : string) :
  Re.sub_start Str.is_alpha ":" (fun pat => Str.lower (Re.group1 pat)) p
  = rule_a p.
Proof.
  unfold Re.sub_start, Re.match_start.
  destruct p as [|c p]; [reflexivity|].
  rewrite rule_a_cases.
  destruct p as [|d p].
  - destruct (Str.is_alpha c); reflexivity.
  - change (Re.strip_literal ":" (String d p))
      with (if Ascii.eqb ":" d then Some p else None).
    rewrite (Ascii.eqb_sym ":" d).
    destruct (Str.is_alpha c), (Ascii.eqb d ":"); reflexivity.
Qed.

Lemma sub_start_letter (p : string) :
  Re.sub_start Str.is_lower "" (fun pat => "//" ++ Re.group1 pat) p = rule_b p.
Proof.
  unfold Re.sub_start, Re.match_start, rule_b.
  destruct p as [|c p]; [reflexivity|].
  destruct (Str.is_lower c); reflexivity.
Qed.

Lemma sub_char_backslash (p : string) : Re.sub_char "\" "/" p = rule_c p.
Proof.
  unfold Re.sub_char.
  induction p as [|c p IH]; [reflexivity|].
  simpl. rewrite IH. unfold slash_of. destruct (Ascii.eqb c "\"); reflexivity.
Qed.

Lemma xoscmounts_normalize (p : string) : xoscmounts p = normalize p.
Proof.
  unfold xoscmounts, normalize.
  now rewrite sub_start_drive, sub_start_letter, sub_char_backslash.
Qed.

Lemma slash_of_idem (c : ascii) : slash_of (slash_of c) = slash_of c.
Proof.
  unfold slash_of. destruct (Ascii.eqb c "\") eqn:E; [reflexivity|].
  now rewrite E.
Qed.

Lemma slash_of_alpha (c : ascii) : Str.is_alpha (slash_of c) = Str.is_alpha c.
Proof.
  unfold slash_of. destruct (Ascii.eqb_spec c "\") as [->|]; reflexivity.
Qed.

Lemma slash_of_lower (c : ascii) : Str.is_lower (slash_of c) = Str.is_lower c.
Proof.
  unfold slash_of. destruct (Ascii.eqb_spec c "\") as [->|]; reflexivity.
Qed.

Lemma slash_of_colon (c : ascii) :
  Ascii.eqb (slash_of c) ":" = Ascii.eqb c ":".
Proof.
  unfold slash_of. destruct (Ascii.eqb_spec c "\") as [->|]; reflexivity.
Qed.

Lemma rule_c_idem (p : string) : rule_c (rule_c p) = rule_c p.
Proof.
  induction p as [|c p IH]; [reflexivity|].
  simpl. now rewrite slash_of_idem, IH.
Qed.

(** A path on which neither of the two leading-letter rules fires is
    left alone by them after its backslashes are turned. *)
Lemma rule_c_stable (p : string) :
  rule_a p = p -> rule_b p = p ->
  rule_a (rule_c p) = rule_c p /\ rule_b (rule_c p) = rule_c p.
Proof.
  destruct p as [|c p]; [now split|].
  intros Ha Hb.
  assert (Hlow : Str.is_lower c = false).
  { unfold rule_b in Hb. destruct (Str.is_lower c); [|reflexivity].
    apply (f_equal String.length) in Hb. simpl in Hb. lia. }
  split.
  - destruct p as [|d rest]; [reflexivity|].
    change (rule_c (String c (String d rest)))
      with (String (slash_of c) (String (slash_of d) (rule_c rest))).
    rewrite rule_a_cases. rewrite rule_a_cases in Ha.
    rewrite slash_of_colon, slash_of_alpha.
    destruct (Ascii.eqb d ":" && Str.is_alpha c) eqn:E; [|reflexivity].
    apply andb_true_iff in E as [_ Halpha].
    apply lower_char_is_lower in Halpha.
    injection Ha as Hc _. rewrite Hc in Halpha. congruence.
  - change (rule_c (String c p)) with (String (slash_of c) (rule_c p)).
    unfold rule_b. now rewrite slash_of_lower, Hlow.
Qed.

Lemma normalize_idem (p : string) : normalize (normalize p) = normalize p.
Proof.
  unfold normalize.
  set (q := rule_a p).
  destruct q as [|c q'] eqn:Hq; [reflexivity|].
  destruct (Str.is_lower c) eqn:Hlow.
  - (* rule (b) fired: the result begins with two slashes *)
    assert (Hb : rule_b (String c q') = "//" ++ String c q').
    { unfold rule_b. now rewrite Hlow. }
    rewrite Hb.
    change (rule_c ("//" ++ String c q'))
      with (String "/" (String "/" (rule_c (String c q')))).
    change (rule_a (String "/" (String "/" (rule_c (String c q')))))
      with (String "/" (String "/" (rule_c (String c q')))).
    change (rule_b (String "/" (String "/" (rule_c (String c q')))))
      with (String "/" (String "/" (rule_c (String c q')))).
    change (rule_c (String "/" (String "/" (rule_c (String c q')))))
      with (String "/" (String "/" (rule_c (rule_c (String c q'))))).
    now rewrite rule_c_idem.
  - (* neither (a) nor (b) fired *)
    assert (Hb : rule_b (String c q') = String c q').
    { unfold rule_b. now rewrite Hlow. }
    assert (Ha : rule_a (String c q') = String c q').
    { subst q. destruct p as [|c0 p0]; [discriminate|].
      rewrite rule_a_cases in Hq.
      destruct p0 as [|d rest].
      - rewrite <- Hq. reflexivity.
      - destruct (Ascii.eqb d ":" && Str.is_alpha c0) eqn:E.
        + apply andb_true_iff in E as [_ Halpha].
          apply lower_char_is_lower in Halpha.
          injection Hq as Hc _. rewrite Hc in Halpha. congruence.
        + rewrite <- Hq. now rewrite rule_a_cases, E. }
    rewrite Hb.
    destruct (rule_c_stable _ Ha Hb) as [Ha' Hb'].
    now rewrite Ha', Hb', rule_c_idem.
Qed.

End Normalisation.

(** C5: [xoscmounts] applies the three rules in order -- (a) a leading
    drive letter followed by a colon is lower-cased, (b) a leading
    lower-case letter is prefixed with two slashes, (c) every backslash
    becomes a forward slash -- and the path [C:\Users\x] is normalised to
    a path that begins with [//c/Users/x]. *)
Theorem xoscmounts_rules_in_order :
  (forall p : string,
      xoscmounts p
      = NormalizeSpec.rule_c (NormalizeSpec.rule_b (NormalizeSpec.rule_a p)))
  /\ xoscmounts "C:\Users\x" = "//c/Users/x"
  /\ String.prefix "//c/Users/x" (xoscmounts "C:\Users\x") = true.
Proof.
  split; [exact xoscmounts_normalize|].
  split; reflexivity.
Qed.

(** C6: mount path normalisation is idempotent: normalising a normalised
    path returns it unchanged, for every path. *)
Theorem xoscmounts_idempotent (p : string) :
  xoscmounts (xoscmounts p) = xoscmounts p.
Proof.
  rewrite !xoscmounts_normalize. apply normalize_idem.
Qed.

(** ** Reasoning about computations in [M] *)

Section Triples.

Context {A B : Type}.
Variables (P : event -> Prop) (E : exn -> Prop).

Lemma triple_ret (Q : A -> Prop) (a : A) : Q a -> triple P Q E (ret a).
Proof.
  intros Ha t r t' H. injection H as <- <-.
  split; [exists []; split; [now rewrite app_nil_r | constructor] | exact Ha].
Qed.

Lemma triple_raise (Q : A -> Prop) (e : exn) : E e -> triple P Q E (raise e).
Proof.
  intros He t r t' H. injection H as <- <-.
  split; [exists []; split; [now rewrite app_nil_r | constructor] | exact He].
Qed.

Lemma triple_unfinished (Q : A -> Prop) : triple P Q E (@unfinished A).
Proof.
  intros t r t' H. injection H as <- <-.
  split; [exists []; split; [now rewrite app_nil_r | constructor] | exact I].
Qed.

Lemma triple_emit (Q : A -> Prop) (ev : event) (answer : trace -> A) :
  P ev -> (forall t, Q (answer t)) -> triple P Q E (emit ev answer).
Proof.
  intros Hev Hq t r t' H. injection H as <- <-.
  split; [exists [ev]; split; [reflexivity | now constructor] | apply Hq].
Qed.

Lemma triple_bind (Q1 : A -> Prop) (Q : B -> Prop) (m : M A) (k : A -> M B) :
  triple P Q1 E m ->
  (forall a, Q1 a -> triple P Q E (k a)) ->
  triple P Q E (bind m k).
Proof.
  intros Hm Hk t r t' H. unfold bind in H.
  destruct (m t) as [[a|e|] t1] eqn:Em.
  - destruct (Hm _ _ _ Em) as [[evs1 [-> F1]] Qa].
    destruct (Hk a Qa _ _ _ H) as [[evs2 [-> F2]] R].
    split; [|exact R].
    exists (evs1 +++ evs2). split; [now rewrite app_assoc|].
    apply Forall_app; auto.
  - injection H as <- <-. destruct (Hm _ _ _ Em) as [Hext He].
    split; assumption.
  - injection H as <- <-. destruct (Hm _ _ _ Em) as [Hext _].
    split; [assumption | exact I].
Qed.

End Triples.

Lemma triple_weaken {A} (P P' : event -> Prop) (Q Q' : A -> Prop)
      (E E' : exn -> Prop) (m : M A) :
  (forall ev, P ev -> P' ev) -> (forall a, Q a -> Q' a) ->
  (forall e, E e -> E' e) ->
  triple P Q E m -> triple P' Q' E' m.
Proof.
  intros HP HQ HE Hm t r t' H.
  destruct (Hm _ _ _ H) as [[evs [-> F]] R]. split.
  - exists evs. split; [reflexivity|].
    eapply Forall_impl; [|exact F]. exact HP.
  - destruct r; auto.
Qed.

Lemma triple_for_each {A} (P : event -> Prop) (E : exn -> Prop)
      (xs : list A) (body : A -> M unit) :
  (forall x, triple P (fun _ => True) E (body x)) ->
  triple P (fun _ => True) E (for_each xs body).
Proof.
  intros Hbody. induction xs as [|x xs IH]; simpl.
  - now apply triple_ret.
  - eapply triple_bind; [apply Hbody | intros _ _; exact IH].
Qed.

Lemma triple_map_m {A B} (P : event -> Prop) (E : exn -> Prop)
      (f : A -> M B) (xs : list A) :
  (forall x, triple P (fun _ => True) E (f x)) ->
  triple P (fun _ => True) E (map_m f xs).
Proof.
  intros Hf. induction xs as [|x xs IH]; simpl.
  - now apply triple_ret.
  - eapply triple_bind; [apply Hf | intros y _].
    eapply triple_bind; [exact IH | intros ys _; now apply triple_ret].
Qed.

(** A loop whose bodies only record calls returns, with those calls
    recorded in order. *)
Lemma for_each_emit {A} (xs : list A) (ev : A -> event) (t : trace) :
  for_each xs (fun x => emit (ev x) (fun _ => tt)) t = (Ok tt, t +++ map ev xs).
Proof.
  revert t. induction xs as [|x xs IH]; intros t; simpl.
  - unfold ret. now rewrite app_nil_r.
  - unfold bind at 1. unfold emit at 1. rewrite IH.
    now rewrite <- app_assoc.
Qed.

Lemma bind_ok {A B} (m : M A) (k : A -> M B) (t t1 : trace) (a : A) :
  m t = (Ok a, t1) -> bind m k t = k a t1.
Proof. intros H. unfold bind. now rewrite H. Qed.

Lemma bind_raise {A B} (m : M A) (k : A -> M B) (t t1 : trace) (e : exn) :
  m t = (Raise e, t1) -> bind m k t = (Raise e, t1).
Proof. intros H. unfold bind. now rewrite H. Qed.

Lemma running_containers_eq (w : world) (game : string) (t : trace) :
  running_containers w game t
  = match shell_output_of w t (listing_command game) with
    | Some out => (Ok (units_of out), t +++ [CheckOutputShell (listing_command game)])
    | None => (Raise (CalledProcessError [listing_command game]),
               t +++ [CheckOutputShell (listing_command game)])
    end.
Proof.
  unfold running_containers, subprocess_check_output_shell, bind, emit.
  fold (listing_command game).
  destruct (shell_output_of w t (listing_command game)); reflexivity.
Qed.

(** ** The launch command *)

Lemma launch_cmd_shape (player : Player) (nth_player num_players : Z)
      (lp : launch_params) :
  exists tail, forall opts,
    launch_cmd player nth_player num_players (with_docker_opts lp opts)
    = cmd_head player nth_player lp +++ opts +++ computed_net opts +++ tail.
Proof.
  exists (skipn (List.length (cmd_head player nth_player lp) + 2)
                (launch_cmd player nth_player num_players (with_docker_opts lp []))).
  intros opts. unfold launch_cmd, computed_net, is_bot.
  change (launch_env player nth_player num_players (with_docker_opts lp opts))
    with (launch_env player nth_player num_players lp).
  change (launch_env player nth_player num_players (with_docker_opts lp []))
    with (launch_env player nth_player num_players lp).
  change (container_name_of (with_docker_opts lp opts))
    with (container_name_of lp).
  change (container_name_of (with_docker_opts lp [])) with (container_name_of lp).
  change (docker_opts (with_docker_opts lp opts)) with opts.
  change (docker_opts (with_docker_opts lp [])) with (@nil string).
  change (headless (with_docker_opts lp opts)) with (headless lp).
  change (headless (with_docker_opts lp [])) with (headless lp).
  change (str_in "--net" []) with false.
  destruct (headless lp), (kind player) as [|b]; cbn [negb];
    try destruct (javaDebugPort b);
    destruct (str_in "--net" opts); cbn [negb];
    destruct opts as [|o opts];
    rewrite <- ?app_assoc; reflexivity.
Qed.

Lemma launch_cmd_head (player : Player) (nth_player num_players : Z)
      (lp : launch_params) :
  exists rest,
    launch_cmd player nth_player num_players lp = "docker" :: "run" :: rest.
Proof.
  destruct (launch_cmd_shape player nth_player num_players lp) as [tail H].
  specialize (H (docker_opts lp)).
  replace (with_docker_opts lp (docker_opts lp)) with lp in H
    by (destruct lp; reflexivity).
  rewrite H. unfold cmd_head. eexists. reflexivity.
Qed.

(** ** What each function records and raises

    Each lemma holds for any set [E] of exceptions that contains the ones
    the function can raise. *)

Ltac quiet_event := split; reflexivity.
Ltac other_exn := intros ?; discriminate.

Section FunctionTriples.

Variable w : world.
Variable E : exn -> Prop.

Hypothesis E_process : forall argv, E (CalledProcessError argv).
Hypothesis E_callback : forall msg, E (CallbackError msg).
Hypothesis E_value : E ValueError.
Hypothesis E_launch : forall msg, E (DockerException msg).
Hypothesis E_lingering : E (ContainerException lingering_message).
Hypothesis E_realtime : E (RealtimeOutedException realtime_message).
Hypothesis E_error_exit : E (ContainerException error_exit_message).

Let any {T} : T -> Prop := fun _ => True.

Lemma running_containers_triple (game : string) :
  triple quiet any E (running_containers w game).
Proof.
  unfold running_containers, subprocess_check_output_shell.
  eapply triple_bind with (Q1 := any).
  - eapply triple_bind with (Q1 := any).
    + apply triple_emit; [quiet_event | easy].
    + intros [out|] _; [now apply triple_ret | apply triple_raise, E_process].
  - intros out _. now apply triple_ret.
Qed.

Lemma time_time_triple : triple quiet any E (time_time w).
Proof. apply triple_emit; [quiet_event | easy]. Qed.

Lemma wait_callback_triple : triple quiet any E (wait_callback w).
Proof.
  unfold wait_callback. eapply triple_bind with (Q1 := any).
  - apply triple_emit; [quiet_event | easy].
  - intros [msg|] _; [apply triple_raise, E_callback | now apply triple_ret].
Qed.

(** The loop is left normally only on an empty listing: the value of
    [containers] after the loop is the empty list. *)
Lemma poll_loop_triple (fuel : nat) (game : string) (running_time : Q) :
  triple quiet (fun containers => containers = []) E
         (poll_loop w fuel game running_time).
Proof.
  revert running_time. induction fuel as [|fuel IH]; intros running_time.
  - apply triple_unfinished.
  - cbn [poll_loop].
    eapply triple_bind; [apply running_containers_triple|].
    intros containers _.
    destruct (Nat.eqb (List.length containers) 0) eqn:Hlen.
    + apply triple_ret. apply Nat.eqb_eq in Hlen.
      now apply length_zero_iff_nil.
    + eapply triple_bind with (Q1 := any).
      { destruct (Nat.leb 2 (List.length containers));
          [apply time_time_triple | now apply triple_ret]. }
      intros running_time' _.
      eapply triple_bind with (Q1 := any).
      { destruct (Nat.eqb (List.length containers) 1); [|now apply triple_ret].
        eapply triple_bind; [apply time_time_triple|].
        intros now _. now apply triple_ret. }
      intros [|] _; [apply triple_raise, E_lingering|].
      eapply triple_bind; [apply wait_callback_triple|].
      intros _ _. apply IH.
Qed.

Lemma launch_image_triple (player : Player) (nth_player num_players : Z)
      (lp : launch_params) :
  triple quiet any E (launch_image w player nth_player num_players lp).
Proof.
  unfold launch_image.
  eapply triple_bind with (Q1 := any).
  { destruct (kind player);
      [now apply triple_ret | apply triple_emit; [quiet_event | easy]]. }
  intros _ _.
  eapply triple_bind with (Q1 := any).
  { apply triple_emit; [|easy].
    destruct (launch_cmd_head player nth_player num_players lp) as [rest ->].
    quiet_event. }
  intros code _. destruct (code =? 0)%Z; [|apply triple_raise, E_launch].
  eapply triple_bind with (Q1 := any); [|intros; now apply triple_ret].
  unfold subprocess_check_output.
  eapply triple_bind with (Q1 := any).
  - apply triple_emit; [quiet_event | easy].
  - intros [out|] _; [now apply triple_ret | apply triple_raise, E_process].
Qed.

Lemma launch_all_triple (players : list Player) (lp : launch_params) :
  triple quiet any E (launch_all w players lp).
Proof.
  unfold launch_all. apply triple_for_each.
  intros ip. apply launch_image_triple.
Qed.

Lemma launch_viewers_triple (players : list Player) (lp : launch_params)
      (show_all : bool) :
  triple quiet any E (launch_viewers players lp show_all).
Proof.
  unfold launch_viewers. destruct (negb (headless lp)); [|now apply triple_ret].
  apply triple_for_each. intros ip.
  apply triple_emit; [quiet_event | easy].
Qed.

(** The calls that precede the launches: the search for files of an
    earlier match of the same name, and their removal. *)
Lemma find_files_triple (finder dir game : string) :
  triple quiet any E (find_files w finder dir game).
Proof. apply triple_emit; [quiet_event | easy]. Qed.

Lemma remove_files_triple (files : list string) :
  triple quiet any E (for_each files os_remove).
Proof.
  apply triple_for_each. intros file. apply triple_emit; [quiet_event | easy].
Qed.

Lemma container_exit_code_triple (container : string) :
  triple any any E (container_exit_code w container).
Proof.
  unfold container_exit_code, subprocess_check_output.
  eapply triple_bind with (Q1 := any).
  - eapply triple_bind with (Q1 := any).
    + apply triple_emit; easy.
    + intros [out|] _; [now apply triple_ret | apply triple_raise, E_process].
  - intros out _.
    destruct (Str.to_int _); [now apply triple_ret | apply triple_raise, E_value].
Qed.

(** Removal and stopping never raise, whatever the status. *)
Lemma cleanup_containers_ok (containers : list string) (t : trace) :
  fst (cleanup_containers w containers t) = Ok tt.
Proof.
  unfold cleanup_containers. destruct containers; reflexivity.
Qed.

Lemma stop_containers_ok (containers : list string) (t : trace) :
  fst (stop_containers w containers t) = Ok tt.
Proof.
  unfold stop_containers. destruct containers; reflexivity.
Qed.

Lemma cleanup_containers_triple (containers : list string) :
  triple no_inspect any (fun _ => False) (cleanup_containers w containers).
Proof.
  intros t r t' H. split.
  - unfold cleanup_containers in H. destruct containers as [|c cs].
    + injection H as <- <-. exists []. now rewrite app_nil_r.
    + injection H as <- <-. eexists. split; [reflexivity|].
      constructor; easy.
  - pose proof (cleanup_containers_ok containers t) as Hok.
    rewrite H in Hok. simpl in Hok. now subst r.
Qed.

(** Copying the bot files back never raises. *)
Lemma overwrite_triple (players : list Player) (lp : launch_params) :
  triple no_inspect any (fun _ => False)
         (for_each (enumerate players)
                   (fun np =>
                      match kind (snd np) with
                      | BotPlayer b =>
                          copy_tree
                            (write_dir b ++ "/" ++ game_name lp ++ "_"
                               ++ Str.of_int (Z.of_nat (fst np)))
                            (read_dir b)
                      | HumanPlayer => ret tt
                      end)).
Proof.
  apply triple_for_each. intros np.
  destruct (kind (snd np)); [now apply triple_ret | apply triple_emit; easy].
Qed.

Lemma exit_code_error_allowed (exit_codes : list Z) (e : exn) :
  exit_code_error exit_codes = Some e -> E e.
Proof.
  unfold exit_code_error.
  destruct (existsb _ exit_codes); [intros [= <-]; apply E_realtime|].
  destruct (existsb _ exit_codes); [intros [= <-]; apply E_error_exit | discriminate].
Qed.

(** What follows the loop, for any value of [containers]. *)
Lemma after_loop_any (players : list Player) (lp : launch_params)
      (read_overwrite : bool) (start_containers containers : list string) :
  triple any any E
    (exit_codes <- map_m (container_exit_code w) containers ;;
     cleanup_containers w start_containers ;;;
     match exit_code_error exit_codes with
     | Some e => raise e
     | None =>
         if read_overwrite then
           for_each (enumerate players)
                    (fun np =>
                       match kind (snd np) with
                       | BotPlayer b =>
                           copy_tree
                             (write_dir b ++ "/" ++ game_name lp ++ "_"
                                ++ Str.of_int (Z.of_nat (fst np)))
                             (read_dir b)
                       | HumanPlayer => ret tt
                       end)
         else ret tt
     end).
Proof.
  eapply triple_bind with (Q1 := any).
  { apply triple_map_m. intros c. apply container_exit_code_triple. }
  intros exit_codes _. eapply triple_bind with (Q1 := any).
  { eapply triple_weaken; [| | |apply cleanup_containers_triple]; easy. }
  intros _ _.
  destruct (exit_code_error exit_codes) as [e|] eqn:He.
  - apply triple_raise. eapply exit_code_error_allowed; eassumption.
  - destruct read_overwrite; [|now apply triple_ret].
    eapply triple_weaken; [| | |apply overwrite_triple]; easy.
Qed.

Lemma await_game_triple (fuel : nat) (players : list Player) (lp : launch_params)
      (show_all read_overwrite : bool) (start_containers : list string) :
  triple any any E
         (await_game w fuel players lp show_all read_overwrite start_containers).
Proof.
  unfold await_game.
  eapply triple_bind with (Q1 := any).
  { eapply triple_weaken; [| | |apply launch_viewers_triple]; easy. }
  intros _ _. eapply triple_bind with (Q1 := any).
  { eapply triple_weaken; [| | |apply time_time_triple]; easy. }
  intros running_time _. eapply triple_bind with (Q1 := any).
  { eapply triple_weaken; [| | |apply poll_loop_triple]; easy. }
  intros containers _. apply after_loop_any.
Qed.

End FunctionTriples.

(** ** Launching a unit *)

(** The outcome of [launch_image] in full: the completion status of the
    create+start call decides between failure and the lookup, and the
    lookup decides nothing but its own failure. *)
Lemma launch_image_outcome (w : world) (player : Player)
      (nth_player num_players : Z) (lp : launch_params) (t : trace) :
  let t1 := start_entry t lp nth_player player in
  let cmd := launch_cmd player nth_player num_players lp in
  let lookup := lookup_command lp nth_player player in
  fst (launch_image w player nth_player num_players lp t)
  = if (call_status w t1 cmd =? 0)%Z then
      match output_of w (t1 +++ [SubprocessCall cmd]) lookup with
      | Some _ => Ok tt
      | None => Raise (CalledProcessError lookup)
      end
    else Raise (DockerException (launch_failure_message lp nth_player player)).
Proof.
  unfold launch_image, start_entry, lookup_command, launch_failure_message.
  unfold subprocess_call, subprocess_check_output, os_makedirs.
  unfold bind, emit, ret, raise.
  destruct (kind player) as [|b];
    (destruct (call_status w _ _ =? 0)%Z; [|reflexivity]);
    destruct (output_of w _ _); reflexivity.
Qed.

(** C3, as the code has it: [launch_image] raises [DockerException]
    exactly when the create+start call completes with a nonzero status.
    When the status is zero the lookup by name is made and its output is
    not examined: the function returns normally whatever the lookup
    prints (an empty output included), and lets [CalledProcessError]
    through when the lookup command itself fails. *)
Theorem launch_image_fails_iff_nonzero_status (w : world) (player : Player)
        (nth_player num_players : Z) (lp : launch_params) (t : trace) :
  let t1 := start_entry t lp nth_player player in
  let cmd := launch_cmd player nth_player num_players lp in
  let lookup := lookup_command lp nth_player player in
  let r := fst (launch_image w player nth_player num_players lp t) in
  ((exists msg, r = Raise (DockerException msg)) <-> call_status w t1 cmd <> 0%Z)
  /\ (r = Ok tt
      <-> call_status w t1 cmd = 0%Z
          /\ exists out, output_of w (t1 +++ [SubprocessCall cmd]) lookup = Some out)
  /\ (r = Raise (CalledProcessError lookup)
      <-> call_status w t1 cmd = 0%Z
          /\ output_of w (t1 +++ [SubprocessCall cmd]) lookup = None).
Proof.
  intros t1 cmd lookup r. subst r.
  rewrite (launch_image_outcome w player nth_player num_players lp t).
  fold t1 cmd lookup.
  destruct (Z.eqb_spec (call_status w t1 cmd) 0) as [Hz|Hnz];
    [destruct (output_of w (t1 +++ [SubprocessCall cmd]) lookup) as [out|]|];
    repeat split; intros;
    repeat match goal with
           | H : exists _, _ |- _ => destruct H
           | H : _ /\ _ |- _ => destruct H
           end;
    try congruence; try discriminate; eauto.
Qed.

(** C3, the claim as stated fails: in the runtime [Scenario.not_found]
    the create+start call completes with status 0 and the lookup by name
    prints nothing (no unit of that name is running), yet [launch_image]
    returns normally instead of raising. *)
Lemma launch_image_unit_not_found :
  let r := launch_image Scenario.not_found Scenario.alice 0 1 Scenario.m1 [] in
  let cmd := launch_cmd Scenario.alice 0 1 Scenario.m1 in
  let lookup := lookup_command Scenario.m1 0 Scenario.alice in
  call_status Scenario.not_found [] cmd = 0%Z
  /\ output_of Scenario.not_found [SubprocessCall cmd] lookup = Some ""
  /\ snd r = [SubprocessCall cmd; CheckOutput lookup]
  /\ fst r = Ok tt
  /\ ~ (exists msg, fst r = Raise (DockerException msg)).
Proof.
  repeat split.
  intros [msg H]. vm_compute in H. discriminate.
Qed.

(** ** Outcome classification *)

Lemma existsb_eqb_In (n : Z) (codes : list Z) :
  existsb (fun c => (c =? n)%Z) codes = true <-> In n codes.
Proof.
  rewrite existsb_exists. split.
  - intros [c [Hin Hc]]. apply Z.eqb_eq in Hc. now subst.
  - intros Hin. exists n. split; [assumption | apply Z.eqb_refl].
Qed.

(** C4: for every sequence of exit codes, the realtime-out exception is
    raised when some code is 2 (outcome RealtimeTimedOut); otherwise the
    container exception is raised when some code is 1 (outcome
    UnitError); otherwise nothing is raised (outcome Success).  With 2
    and 1 both present the realtime-out outcome wins. *)
Theorem exit_codes_classified (exit_codes : list Z) :
  (exit_code_error exit_codes = Some (RealtimeOutedException realtime_message)
   <-> In 2%Z exit_codes)
  /\ (exit_code_error exit_codes = Some (ContainerException error_exit_message)
      <-> ~ In 2%Z exit_codes /\ In 1%Z exit_codes)
  /\ (exit_code_error exit_codes = None
      <-> ~ In 2%Z exit_codes /\ ~ In 1%Z exit_codes)
  /\ exit_code_error [0; 0]%Z = None
  /\ exit_code_error [0; 2]%Z = Some (RealtimeOutedException realtime_message)
  /\ exit_code_error [1; 0]%Z = Some (ContainerException error_exit_message)
  /\ exit_code_error [2; 1]%Z = Some (RealtimeOutedException realtime_message).
Proof.
  unfold exit_code_error, EXIT_CODE_REALTIME_OUTED.
  pose proof (existsb_eqb_In 2 exit_codes) as H2.
  pose proof (existsb_eqb_In 1 exit_codes) as H1.
  destruct (existsb (fun c => (c =? 2)%Z) exit_codes);
    destruct (existsb (fun c => (c =? 1)%Z) exit_codes);
    intuition (try reflexivity; try discriminate; try congruence).
Qed.

(** ** Stopping and removing units *)

(** C8: [stop_containers] and [cleanup_containers] called with no unit
    name make no runtime call and return normally; called with any
    names, they return normally whatever completion status the runtime
    reports, having made exactly one call. *)
Theorem cleanup_never_raises (w : world) (t : trace) :
  stop_containers w [] t = (Ok tt, t)
  /\ cleanup_containers w [] t = (Ok tt, t)
  /\ (forall containers,
         fst (stop_containers w containers t) = Ok tt
         /\ fst (cleanup_containers w containers t) = Ok tt)
  /\ (forall c containers,
         snd (stop_containers w (c :: containers) t)
           = t +++ [SubprocessCall ("docker" :: "stop" :: c :: containers)]
         /\ snd (cleanup_containers w (c :: containers) t)
           = t +++ [SubprocessCall ("docker" :: "rm" :: c :: containers)]).
Proof.
  repeat split.
  - apply stop_containers_ok.
  - apply cleanup_containers_ok.
Qed.

(** ** Extra runtime options *)


(** ** The launch check *)

Lemma monitor_game_checked (w : world) (fuel : nat) (players : list Player)
      (lp : launch_params) (show_all read_overwrite : bool) (t : trace)
      (out : string) :
  let listed := t +++ [Sleep 1; CheckOutputShell (listing_command (game_name lp))] in
  shell_output_of w (t +++ [Sleep 1]) (listing_command (game_name lp)) = Some out ->
  monitor_game w fuel players lp show_all read_overwrite t
  = if Nat.eqb (List.length (units_of out)) (List.length players)
    then await_game w fuel players lp show_all read_overwrite (units_of out) listed
    else (Raise (DockerException premature_message), listed).
Proof.
  intros listed Hout. subst listed.
  unfold monitor_game.
  erewrite bind_ok by reflexivity.
  erewrite bind_ok by (rewrite running_containers_eq, Hout; reflexivity).
  rewrite <- app_assoc.
  destruct (Nat.eqb (List.length (units_of out)) (List.length players));
    reflexivity.
Qed.

(** C7: once every unit is launched, the monitor sleeps for the settle
    delay and then lists the running units by match name; it raises the
    premature-exit [DockerException] if and only if the number of units
    listed differs from the number of players, and when it does, the
    listing is the last call made: no poll, no exit code inspection, no
    removal, no copy of bot files. *)
Theorem incomplete_launch_detected (w : world) (fuel : nat)
        (players : list Player) (lp : launch_params)
        (show_all read_overwrite : bool) (t : trace) (out : string) :
  let listing := CheckOutputShell (listing_command (game_name lp)) in
  let r := monitor_game w fuel players lp show_all read_overwrite t in
  shell_output_of w (t +++ [Sleep 1]) (listing_command (game_name lp)) = Some out ->
  (exists rest, snd r = t +++ [Sleep 1; listing] +++ rest)
  /\ (fst r = Raise (DockerException premature_message)
      <-> List.length (units_of out) <> List.length players)
  /\ (fst r = Raise (DockerException premature_message) ->
      snd r = t +++ [Sleep 1; listing]).
Proof.
  intros listing r Hout. subst r listing.
  rewrite (monitor_game_checked w fuel players lp show_all read_overwrite t out Hout).
  destruct (Nat.eqb_spec (List.length (units_of out)) (List.length players))
    as [Heq|Hne].
  - destruct (await_game w fuel players lp show_all read_overwrite (units_of out)
                         (t +++ [Sleep 1; CheckOutputShell (listing_command (game_name lp))]))
      as [r t'] eqn:Hrun.
    assert (Hawait :
      triple (fun _ => True) (fun _ => True) not_docker
             (await_game w fuel players lp show_all read_overwrite (units_of out)))
      by (apply await_game_triple; other_exn).
    destruct (Hawait _ _ _ Hrun) as [[evs [-> _]] Hr].
    cbn [fst snd]. split; [|split].
    + exists evs. now rewrite <- app_assoc.
    + split; [|easy]. intros ->. now elim (Hr premature_message).
    + intros ->. now elim (Hr premature_message).
  - cbn [fst snd]. split; [|split].
    + exists []. reflexivity.
    + easy.
    + reflexivity.
Qed.

(** ** The poll loop and the lingering unit *)




(** ** Errors raised before the exit codes are read *)

Ltac lingering_free :=
  intros; unfold not_lingering;
  first [discriminate | intros [= Hmsg]; vm_compute in Hmsg; discriminate Hmsg].

Lemma quiet_no_inspect (e : event) : quiet e -> no_inspect e.
Proof. now intros [H _]. Qed.

Lemma bind_eq {A B} (m : M A) (k : A -> M B) (t : trace) :
  bind m k t
  = match m t with
    | (Ok a, t1) => k a t1
    | (Raise e, t1) => (Raise e, t1)
    | (Unfinished, t1) => (Unfinished, t1)
    end.
Proof. reflexivity. Qed.

Lemma raises_quietly_bind {A B} (Q1 : A -> Prop) (E : exn -> Prop)
      (m : M A) (k : A -> M B) :
  triple quiet Q1 E m ->
  (forall a, Q1 a -> raises_quietly (k a)) ->
  raises_quietly (bind m k).
Proof.
  intros Hm Hk t e t' H. unfold bind in H.
  destruct (m t) as [[a|e1|] t1] eqn:Em.
  - destruct (Hm _ _ _ Em) as [[evs1 [-> F1]] Qa].
    destruct (Hk a Qa _ _ _ H) as [evs2 [-> F2]].
    exists (evs1 +++ evs2). split; [now rewrite app_assoc|].
    apply Forall_app; auto.
  - injection H as <- <-. now destruct (Hm _ _ _ Em) as [Hext _].
  - discriminate.
Qed.

Lemma raises_quietly_raise {A} (e : exn) : raises_quietly (@raise A e).
Proof.
  intros t e' t' H. injection H as _ <-. exists []. now rewrite app_nil_r.
Qed.

Lemma raises_quietly_never {A} (P : event -> Prop) (Q : A -> Prop) (m : M A) :
  triple P Q (fun _ => False) m -> raises_quietly m.
Proof.
  intros Hm t e t' H. now destruct (Hm _ _ _ H) as [_ Hfalse].
Qed.

Lemma raised_at_poll_never {A} (game : string) (P : event -> Prop)
      (Q : A -> Prop) (m : M A) :
  triple P Q not_lingering m -> raised_at_poll game m.
Proof.
  intros Hm t t' H. destruct (Hm _ _ _ H) as [_ Hne]. now elim Hne.
Qed.

Lemma raised_at_poll_bind {A B} (game : string) (P : event -> Prop)
      (Q : A -> Prop) (E : exn -> Prop) (m : M A) (k : A -> M B) :
  triple P Q E m ->
  raised_at_poll game m ->
  (forall a, Q a -> raised_at_poll game (k a)) ->
  raised_at_poll game (bind m k).
Proof.
  intros Hm Hraised Hk t t' H. rewrite bind_eq in H.
  destruct (m t) as [[a|e|] t1] eqn:Em.
  - destruct (Hm _ _ _ Em) as [[evs1 [-> _]] Qa].
    destruct (Hk a Qa _ _ H) as [evs2 ->].
    exists (evs1 +++ evs2). now rewrite <- !app_assoc.
  - injection H as -> <-. exact (Hraised _ _ Em).
  - discriminate.
Qed.

(** A computation that cannot raise the lingering error, followed by one
    that raises it at a poll only. *)
Lemma raised_at_poll_after {A B} (game : string) (P : event -> Prop)
      (Q : A -> Prop) (m : M A) (k : A -> M B) :
  triple P Q not_lingering m ->
  (forall a, Q a -> raised_at_poll game (k a)) ->
  raised_at_poll game (bind m k).
Proof.
  intros Hm Hk. eapply raised_at_poll_bind; [exact Hm | | exact Hk].
  eapply raised_at_poll_never, Hm.
Qed.

Section Monitor.

Variable w : world.
Variables (fuel : nat) (players : list Player) (lp : launch_params).
Variables (show_all read_overwrite : bool).

Let any {T} : T -> Prop := fun _ => True.

(** What follows the loop when it is left with no container: nothing
    is inspected and nothing is raised. *)
Lemma after_loop_triple (start_containers : list string) :
  triple no_inspect any (fun _ => False)
    (exit_codes <- map_m (container_exit_code w) [] ;;
     cleanup_containers w start_containers ;;;
     match exit_code_error exit_codes with
     | Some e => raise e
     | None =>
         if read_overwrite then
           for_each (enumerate players)
                    (fun np =>
                       match kind (snd np) with
                       | BotPlayer b =>
                           copy_tree
                             (write_dir b ++ "/" ++ game_name lp ++ "_"
                                ++ Str.of_int (Z.of_nat (fst np)))
                             (read_dir b)
                       | HumanPlayer => ret tt
                       end)
         else ret tt
     end).
Proof.
  cbn [map_m].
  eapply triple_bind with (Q1 := fun exit_codes => exit_codes = []).
  { now apply triple_ret. }
  intros exit_codes ->.
  eapply triple_bind with (Q1 := any); [apply cleanup_containers_triple|].
  intros _ _. change (exit_code_error []) with (@None exn).
  destruct read_overwrite; [apply overwrite_triple | now apply triple_ret].
Qed.

Lemma await_game_quiet (start_containers : list string) :
  raises_quietly
    (await_game w fuel players lp show_all read_overwrite start_containers).
Proof.
  unfold await_game.
  eapply raises_quietly_bind with (E := any); [apply launch_viewers_triple|].
  intros _ _.
  eapply raises_quietly_bind with (E := any); [apply time_time_triple|].
  intros running_time _.
  eapply raises_quietly_bind with (E := any); [apply poll_loop_triple; easy|].
  intros containers ->.
  eapply raises_quietly_never. apply after_loop_triple.
Qed.

(** No run of [await_game] inspects an exit code. *)
Lemma await_game_no_inspection (start_containers : list string) :
  triple no_inspect any any
    (await_game w fuel players lp show_all read_overwrite start_containers).
Proof.
  unfold await_game.
  eapply triple_bind with (Q1 := any).
  { eapply triple_weaken; cycle 3;
      [apply (launch_viewers_triple any) | exact quiet_no_inspect | easy | easy]. }
  intros _ _. eapply triple_bind with (Q1 := any).
  { eapply triple_weaken; cycle 3;
      [apply (time_time_triple w any) | exact quiet_no_inspect | easy | easy]. }
  intros running_time _.
  eapply triple_bind with (Q1 := fun containers => containers = []).
  { eapply triple_weaken; cycle 3;
      [apply (poll_loop_triple w any); easy
      | exact quiet_no_inspect | easy | easy]. }
  intros containers ->.
  eapply triple_weaken; [| | |apply after_loop_triple]; easy.
Qed.

Lemma monitor_game_quiet :
  raises_quietly (monitor_game w fuel players lp show_all read_overwrite).
Proof.
  unfold monitor_game.
  eapply raises_quietly_bind with (Q1 := any) (E := any).
  { apply triple_emit; [quiet_event | easy]. }
  intros _ _.
  eapply raises_quietly_bind with (E := any);
    [apply running_containers_triple; easy|].
  intros start_containers _.
  destruct (negb _); [apply raises_quietly_raise | apply await_game_quiet].
Qed.

Lemma prelude_triple (E : exn -> Prop) :
  triple quiet any E
    (logs <- find_files w "find_logs" (log_dir lp) (game_name lp) ;;
     replays <- find_files w "find_replays" (map_dir lp) (game_name lp) ;;
     results <- find_files w "find_results" (log_dir lp) (game_name lp) ;;
     frames <- find_files w "find_frames" (log_dir lp) (game_name lp) ;;
     ret (logs +++ replays +++ results +++ frames)).
Proof.
  repeat (eapply triple_bind with (Q1 := any);
          [apply find_files_triple | intros ? _]).
  now apply triple_ret.
Qed.

Lemma launch_game_quiet :
  raises_quietly (launch_game w fuel players lp show_all read_overwrite).
Proof.
  unfold launch_game.
  destruct (Nat.eqb (List.length players) 0); [apply raises_quietly_raise|].
  eapply raises_quietly_bind; [apply (prelude_triple any)|].
  intros existing_files _.
  eapply raises_quietly_bind; [apply (remove_files_triple any)|].
  intros _ _.
  eapply raises_quietly_bind with (E := any);
    [apply launch_all_triple; easy|].
  intros _ _. apply monitor_game_quiet.
Qed.

(** [launch_game] never inspects an exit code. *)
Lemma launch_game_no_inspection :
  triple no_inspect any any
         (launch_game w fuel players lp show_all read_overwrite).
Proof.
  unfold launch_game.
  destruct (Nat.eqb (List.length players) 0); [now apply triple_raise|].
  eapply triple_bind with (Q1 := any).
  { eapply triple_weaken; cycle 3;
      [apply (prelude_triple any) | exact quiet_no_inspect | easy | easy]. }
  intros existing_files _.
  eapply triple_bind with (Q1 := any).
  { eapply triple_weaken; cycle 3;
      [apply (remove_files_triple any) | exact quiet_no_inspect | easy | easy]. }
  intros _ _.
  eapply triple_bind with (Q1 := any).
  { eapply triple_weaken; cycle 3;
      [apply (launch_all_triple w any); easy
      | exact quiet_no_inspect | easy | easy]. }
  intros _ _. unfold monitor_game.
  eapply triple_bind with (Q1 := any); [apply triple_emit; easy|].
  intros _ _.
  eapply triple_bind with (Q1 := any).
  { eapply triple_weaken; cycle 3;
      [apply (running_containers_triple w any); easy
      | exact quiet_no_inspect | easy | easy]. }
  intros start_containers _.
  destruct (negb _); [now apply triple_raise | apply await_game_no_inspection].
Qed.

(** The lingering error leaves the loop right after the listing and the
    clock reading of the poll that found the unit. *)
Lemma poll_loop_raised (game : string) (running_time : Q) (n : nat) :
  raised_at_poll game (poll_loop w n game running_time).
Proof.
  revert running_time. induction n as [|n IH]; intros running_time t t' H.
  - discriminate.
  - cbn [poll_loop] in H. rewrite bind_eq, running_containers_eq in H.
    destruct (shell_output_of w t (listing_command game)) as [out|];
      [|discriminate].
    destruct (List.length (units_of out)) as [|[|k]];
      cbn [Nat.eqb Nat.leb] in H.
    + discriminate.
    + erewrite bind_ok in H by reflexivity.
      erewrite bind_ok in H by reflexivity.
      destruct (Qgtb _ _).
      * injection H as <-. exists []. now rewrite <- app_assoc.
      * rewrite bind_eq in H. unfold wait_callback in H.
        rewrite bind_eq in H. unfold emit at 1 in H.
        destruct (callback_result w _); [discriminate|].
        destruct (IH _ _ _ H) as [evs ->].
        exists ([CheckOutputShell (listing_command game); TimeTime; WaitCallback]
                  +++ evs).
        now rewrite <- !app_assoc.
    + erewrite bind_ok in H by reflexivity.
      erewrite bind_ok in H by reflexivity.
      cbv iota in H.
      rewrite bind_eq in H. unfold wait_callback in H.
      rewrite bind_eq in H. unfold emit at 1 in H.
      destruct (callback_result w _); [discriminate|].
      destruct (IH _ _ _ H) as [evs ->].
      exists ([CheckOutputShell (listing_command game); TimeTime; WaitCallback]
                +++ evs).
      now rewrite <- !app_assoc.
Qed.

Lemma await_game_raised (start_containers : list string) :
  raised_at_poll (game_name lp)
    (await_game w fuel players lp show_all read_overwrite start_containers).
Proof.
  unfold await_game.
  eapply raised_at_poll_after; [apply launch_viewers_triple|].
  intros _ _.
  eapply raised_at_poll_after; [apply time_time_triple|].
  intros running_time _.
  eapply raised_at_poll_bind with (E := any).
  - apply poll_loop_triple; easy.
  - apply poll_loop_raised.
  - intros containers _. eapply raised_at_poll_never.
    apply after_loop_any; lingering_free.
Qed.

Lemma launch_game_raised :
  raised_at_poll (game_name lp)
    (launch_game w fuel players lp show_all read_overwrite).
Proof.
  unfold launch_game.
  destruct (Nat.eqb (List.length players) 0).
  { intros t t' H. discriminate. }
  eapply raised_at_poll_after; [apply prelude_triple|].
  intros existing_files _.
  eapply raised_at_poll_after; [apply remove_files_triple|].
  intros _ _.
  eapply raised_at_poll_after; [apply launch_all_triple; lingering_free|].
  intros _ _. unfold monitor_game.
  eapply raised_at_poll_after with (P := any) (Q := any).
  { apply triple_emit; easy. }
  intros _ _.
  eapply raised_at_poll_after;
    [apply running_containers_triple; lingering_free|].
  intros start_containers _.
  destruct (negb _); [|apply await_game_raised].
  intros t t' H. discriminate.
Qed.

End Monitor.

(** C1, at a match that finishes normally: both units of the last
    non-empty listing exited with status 2, the realtime-out code, which
    classification turns into [RealtimeOutedException].  [launch_game]
    removes the units and returns normally without a single exit code
    inspection: on leaving the loop [containers] is the empty listing,
    and it is the exit codes of that list that are classified. *)
Theorem finished_game_inspects_nothing :
  let w := Scenario.realtime_out in
  let r := launch_game w 5 [Scenario.alice; Scenario.bob] Scenario.m1
                       false false [] in
  fst r = Ok tt
  /\ existsb is_inspect (snd r) = false
  /\ existsb is_rm (snd r) = true
  /\ fst (map_m (container_exit_code w) ["aaa"; "bbb"] (snd r)) = Ok [2; 2]%Z
  /\ exit_code_error [2; 2]%Z = Some (RealtimeOutedException realtime_message)
  /\ exit_code_error [] = None.
Proof.
  vm_compute. repeat split.
Qed.

(** C2, as the code has it: when [launch_game] raises the lingering
    [ContainerException], the error has left the poll loop directly: the
    last two calls made are the listing and the clock reading of the
    poll that found the unit, and no exit code has been inspected and no
    unit removed. *)
Theorem lingering_error_skips_cleanup (w : world) (fuel : nat)
        (players : list Player) (lp : launch_params)
        (show_all read_overwrite : bool) (t t' : trace) :
  launch_game w fuel players lp show_all read_overwrite t
    = (Raise (ContainerException lingering_message), t') ->
  exists evs,
    t' = t +++ evs
           +++ [CheckOutputShell (listing_command (game_name lp)); TimeTime]
    /\ Forall quiet evs.
Proof.
  intros H.
  destruct (launch_game_raised w fuel players lp show_all read_overwrite _ _ H)
    as [evs ->].
  destruct (launch_game_quiet w fuel players lp show_all read_overwrite _ _ _ H)
    as [evs' [Heq Hquiet]].
  exists evs. split; [reflexivity|].
  apply app_inv_head in Heq. rewrite <- Heq in Hquiet.
  now apply Forall_app in Hquiet.
Qed.

Lemma lingering_error_skips_cleanup_witness :
  exists evs,
    snd (launch_game Scenario.orphan 20 [Scenario.alice; Scenario.bob]
                     Scenario.m1 false false [])
    = [] +++ evs
         +++ [CheckOutputShell (listing_command (game_name Scenario.m1)); TimeTime]
    /\ Forall quiet evs.
Proof.
  apply (lingering_error_skips_cleanup
           Scenario.orphan 20 [Scenario.alice; Scenario.bob] Scenario.m1
           false false []).
  vm_compute. reflexivity.
Defined.

(** C2, the claim as stated fails: in the runtime [Scenario.orphan] one
    unit outlives its peer beyond the threshold; [launch_game] raises the
    lingering error and the trace holds neither an exit code inspection
    nor a removal. *)
Lemma lingering_raised_without_cleanup :
  let r := launch_game Scenario.orphan 20 [Scenario.alice; Scenario.bob]
                       Scenario.m1 false false [] in
  fst r = Raise (ContainerException lingering_message)
  /\ existsb is_inspect (snd r) = false
  /\ existsb is_rm (snd r) = false.
Proof.
  vm_compute. repeat split.
Qed.

Lemma incomplete_launch_detected_witness :
  let listing := CheckOutputShell (listing_command (game_name Scenario.m1)) in
  let r := monitor_game Scenario.one_missing 5 [Scenario.alice; Scenario.bob]
                        Scenario.m1 false false [] in
  (exists rest, snd r = [] +++ [Sleep 1; listing] +++ rest)
  /\ (fst r = Raise (DockerException premature_message)
      <-> List.length (units_of (Scenario.lines ["aaa"])) <> 2)
  /\ (fst r = Raise (DockerException premature_message) ->
      snd r = [] +++ [Sleep 1; listing]).
Proof.
  apply (incomplete_launch_detected
           Scenario.one_missing 5 [Scenario.alice; Scenario.bob] Scenario.m1
           false false [] (Scenario.lines ["aaa"])).
  reflexivity.
Defined.


(** * Further properties *)

(** ** Mount paths *)

Lemma slash_of_not_backslash (c : ascii) :
  Ascii.eqb "\" (NormalizeSpec.slash_of c) = false.
Proof.
  unfold NormalizeSpec.slash_of.
  destruct (Ascii.eqb_spec c "\") as [->|Hc]; [reflexivity|].
  destruct (Ascii.eqb_spec "\" c) as [<-|]; [now elim Hc | reflexivity].
Qed.

Lemma rule_c_no_backslash (p : string) :
  Str.mem_char "\" (NormalizeSpec.rule_c p) = false.
Proof.
  induction p as [|c p IH]; [reflexivity|].
  cbn [NormalizeSpec.rule_c Str.mem_char].
  now rewrite slash_of_not_backslash, IH.
Qed.

Lemma rule_c_without_backslash (p : string) :
  Str.mem_char "\" p = false -> NormalizeSpec.rule_c p = p.
Proof.
  induction p as [|c p IH]; [reflexivity|].
  cbn [NormalizeSpec.rule_c Str.mem_char]. intros H.
  apply orb_false_iff in H as [Hc Hp].
  rewrite (IH Hp). f_equal. unfold NormalizeSpec.slash_of.
  rewrite Ascii.eqb_sym in Hc. now rewrite Hc.
Qed.

Lemma slash_of_lower_letter (c : ascii) :
  Str.is_lower c = true -> NormalizeSpec.slash_of c = c.
Proof.
  unfold NormalizeSpec.slash_of.
  destruct (Ascii.eqb_spec c "\") as [->|]; [discriminate | reflexivity].
Qed.

(** X1: a normalised mount path holds no backslash. *)
Theorem xoscmounts_no_backslash (p : string) :
  Str.mem_char "\" (xoscmounts p) = false.
Proof.
  rewrite xoscmounts_normalize. apply rule_c_no_backslash.
Qed.

(** X2: the paths that [xoscmounts] leaves unchanged are exactly those
    with no backslash that begin neither with a lower-case letter nor
    with a drive designator. *)
Theorem xoscmounts_fixed_points (p : string) :
  xoscmounts p = p
  <-> Str.mem_char "\" p = false
      /\ starts_lower p = false
      /\ drive_prefixed p = false.
Proof.
  rewrite xoscmounts_normalize. unfold NormalizeSpec.normalize. split.
  - intros Hfix.
    assert (Hback : Str.mem_char "\" p = false).
    { rewrite <- Hfix. apply rule_c_no_backslash. }
    split; [exact Hback|].
    destruct p as [|c p]; [now split|].
    rewrite rule_a_cases in Hfix.
    destruct p as [|d rest].
    + cbn [drive_prefixed starts_lower]. split; [|reflexivity].
      unfold NormalizeSpec.rule_b in Hfix.
      destruct (Str.is_lower c) eqn:Hlow; [|reflexivity].
      cbn in Hfix. injection Hfix as Hc _. subst c. discriminate.
    + cbn [drive_prefixed starts_lower]. rewrite andb_comm.
      destruct (Ascii.eqb d ":" && Str.is_alpha c) eqn:Hdrive.
      * apply andb_true_iff in Hdrive as [_ Halpha].
        pose proof (lower_char_is_lower c Halpha) as Hlow.
        unfold NormalizeSpec.rule_b in Hfix. rewrite Hlow in Hfix.
        cbn in Hfix. injection Hfix as Hc _. subst c. discriminate.
      * split; [|reflexivity].
        unfold NormalizeSpec.rule_b in Hfix.
        destruct (Str.is_lower c) eqn:Hlow; [|reflexivity].
        cbn in Hfix. injection Hfix as Hc _. subst c. discriminate.
  - intros [Hback [Hlow Hdrive]].
    assert (Ha : NormalizeSpec.rule_a p = p).
    { destruct p as [|c p]; [reflexivity|]. rewrite rule_a_cases.
      destruct p as [|d rest]; [reflexivity|].
      cbn [drive_prefixed] in Hdrive. rewrite andb_comm in Hdrive.
      now rewrite Hdrive. }
    rewrite Ha.
    assert (Hb : NormalizeSpec.rule_b p = p).
    { destruct p as [|c p]; [reflexivity|].
      unfold NormalizeSpec.rule_b. cbn [starts_lower] in Hlow.
      now rewrite Hlow. }
    rewrite Hb. now apply rule_c_without_backslash.
Qed.

(** X3: a path with a drive designator, [X:rest], is mounted as two
    slashes, the lower-cased drive letter, and [rest] with its
    backslashes turned; the colon is dropped, and the case of the drive
    letter makes no difference. *)
Theorem xoscmounts_drive_path (c : ascii) (rest : string) :
  Str.is_alpha c = true ->
  xoscmounts (String c (String ":" rest))
  = "//" ++ String (Str.lower_char c) (Re.sub_char "\" "/" rest)
  /\ xoscmounts (String (Str.lower_char c) (String ":" rest))
     = xoscmounts (String c (String ":" rest)).
Proof.
  intros Halpha.
  assert (Hform : forall x, Str.is_alpha x = true ->
            xoscmounts (String x (String ":" rest))
            = "//" ++ String (Str.lower_char x) (Re.sub_char "\" "/" rest)).
  { intros x Hx. rewrite xoscmounts_normalize, sub_char_backslash.
    unfold NormalizeSpec.normalize. rewrite rule_a_cases.
    change (Ascii.eqb ":" ":") with true. rewrite Hx. cbn [andb].
    pose proof (lower_char_is_lower x Hx) as Hlow.
    unfold NormalizeSpec.rule_b. rewrite Hlow.
    cbn. now rewrite (slash_of_lower_letter _ Hlow). }
  split; [now apply Hform|].
  pose proof (lower_char_is_lower c Halpha) as Hlow.
  assert (Halpha' : Str.is_alpha (Str.lower_char c) = true).
  { unfold Str.is_alpha. now rewrite Hlow. }
  rewrite (Hform _ Halpha'), (Hform _ Halpha). do 2 f_equal.
  unfold Str.lower_char at 1.
  destruct (Str.is_upper (Str.lower_char c)) eqn:Hup; [|reflexivity].
  revert Hlow Hup. generalize (Str.lower_char c). intros x.
  destruct x as [[] [] [] [] [] [] [] []]; vm_compute; congruence.
Qed.

Lemma xoscmounts_drive_path_witness :
  xoscmounts "D:\maps\sscai"
  = "//" ++ String (Str.lower_char "D") (Re.sub_char "\" "/" "\maps\sscai")
  /\ xoscmounts (String (Str.lower_char "D") ":\maps\sscai")
     = xoscmounts "D:\maps\sscai".
Proof.
  apply (xoscmounts_drive_path "D" "\maps\sscai"). reflexivity.
Defined.

(** ** Strings: reversal and stripping *)

Lemma append_empty_r (s : string) : s ++ "" = s.
Proof. induction s as [|c s IH]; [reflexivity|]. cbn. now rewrite IH. Qed.

Lemma append_assoc (a b c : string) : (a ++ b) ++ c = a ++ b ++ c.
Proof. induction a as [|x a IH]; [reflexivity|]. cbn. now rewrite IH. Qed.

Lemma rev_string_acc (s acc : string) :
  Str.rev_string acc s = Str.rev_string "" s ++ acc.
Proof.
  revert acc. induction s as [|c s IH]; intros acc; [reflexivity|].
  cbn [Str.rev_string]. rewrite (IH (String c acc)), (IH (String c "")).
  now rewrite append_assoc.
Qed.

Lemma rev_string_append (a b : string) :
  Str.rev_string "" (a ++ b) = Str.rev_string "" b ++ Str.rev_string "" a.
Proof.
  induction a as [|c a IH]; cbn [String.append Str.rev_string].
  - now rewrite append_empty_r.
  - rewrite (rev_string_acc (a ++ b)), (rev_string_acc a), IH.
    now rewrite append_assoc.
Qed.

Lemma rev_string_involutive (s : string) :
  Str.rev_string "" (Str.rev_string "" s) = s.
Proof.
  induction s as [|c s IH]; [reflexivity|].
  cbn [Str.rev_string].
  rewrite (rev_string_acc s (String c "")), rev_string_append, IH.
  reflexivity.
Qed.

Lemma all_chars_append (f : ascii -> bool) (a b : string) :
  all_chars f (a ++ b) = all_chars f a && all_chars f b.
Proof.
  induction a as [|c a IH]; [reflexivity|].
  cbn [String.append all_chars]. now rewrite IH, andb_assoc.
Qed.

Lemma all_chars_rev (f : ascii -> bool) (s : string) :
  all_chars f (Str.rev_string "" s) = all_chars f s.
Proof.
  induction s as [|c s IH]; [reflexivity|].
  cbn [Str.rev_string].
  rewrite (rev_string_acc s (String c "")), all_chars_append, IH.
  cbn [all_chars]. now rewrite andb_true_r, andb_comm.
Qed.

Lemma all_chars_impl (f g : ascii -> bool) (s : string) :
  (forall c, f c = true -> g c = true) ->
  all_chars f s = true -> all_chars g s = true.
Proof.
  intros Hfg. induction s as [|c s IH]; [reflexivity|].
  cbn [all_chars]. intros H. apply andb_true_iff in H as [Hc Hs].
  now rewrite (Hfg c Hc), (IH Hs).
Qed.

Section Strip.

Variable chars : string.

Let inside (c : ascii) : bool := Str.mem_char c chars.
Let outside (c : ascii) : bool := negb (Str.mem_char c chars).

Lemma lstrip_inside (pre s : string) :
  all_chars inside pre = true ->
  Str.lstrip chars (pre ++ s) = Str.lstrip chars s.
Proof.
  induction pre as [|c pre IH]; [reflexivity|].
  cbn [all_chars String.append Str.lstrip]. intros H.
  apply andb_true_iff in H as [Hc Hpre]. unfold inside in Hc.
  rewrite Hc. now apply IH.
Qed.

Lemma lstrip_outside (s post : string) :
  all_chars outside s = true -> s <> "" ->
  Str.lstrip chars (s ++ post) = s ++ post.
Proof.
  destruct s as [|c s]; [easy|]. intros H _.
  cbn [all_chars] in H. apply andb_true_iff in H as [Hc _].
  unfold outside in Hc. apply negb_true_iff in Hc.
  cbn [String.append Str.lstrip]. now rewrite Hc.
Qed.

Lemma lstrip_starts (s : string) : starts_in chars (Str.lstrip chars s) = false.
Proof.
  induction s as [|c s IH]; [reflexivity|].
  cbn [Str.lstrip]. destruct (Str.mem_char c chars) eqn:Hc; [exact IH|].
  cbn [starts_in]. exact Hc.
Qed.

(** What [lstrip] returns is what is left of its argument after a
    prefix made of characters of [chars]. *)
Lemma lstrip_suffix (s : string) :
  exists pre, s = pre ++ Str.lstrip chars s /\ all_chars inside pre = true.
Proof.
  induction s as [|c s [pre [IH Hpre]]]; [now exists ""|].
  cbn [Str.lstrip]. destruct (Str.mem_char c chars) eqn:Hc.
  - exists (String c pre). cbn [String.append all_chars]. unfold inside at 1.
    rewrite Hc, Hpre. now rewrite <- IH.
  - now exists "".
Qed.

(** Stripping removes the padding around a text whose characters are
    all outside [chars]. *)
Lemma strip_padded (pre s post : string) :
  all_chars inside pre = true ->
  all_chars inside post = true ->
  all_chars outside s = true ->
  Str.strip chars (pre ++ s ++ post) = s.
Proof.
  intros Hpre Hpost Hs. unfold Str.strip, Str.rstrip.
  rewrite (lstrip_inside pre _ Hpre).
  destruct (string_dec s "") as [->|Hne].
  - cbn [String.append].
    rewrite <- (append_empty_r post) at 1.
    rewrite (lstrip_inside post "" Hpost). reflexivity.
  - rewrite (lstrip_outside s post Hs Hne), rev_string_append.
    rewrite lstrip_inside by now rewrite all_chars_rev.
    rewrite <- (append_empty_r (Str.rev_string "" s)).
    rewrite lstrip_outside.
    + now rewrite append_empty_r, rev_string_involutive.
    + now rewrite all_chars_rev.
    + intros Hrev. apply Hne.
      rewrite <- (rev_string_involutive s), Hrev. reflexivity.
Qed.

Lemma strip_outside (s : string) :
  all_chars outside s = true -> Str.strip chars s = s.
Proof.
  intros Hs. rewrite <- (append_empty_r s) at 1.
  now apply (strip_padded "" s "").
Qed.

(** What [strip] returns neither begins nor ends with a character of
    [chars]. *)
Lemma strip_clean (s : string) :
  starts_in chars (Str.strip chars s) = false
  /\ ends_in chars (Str.strip chars s) = false.
Proof.
  unfold Str.strip, Str.rstrip, ends_in. split.
  - pose proof (lstrip_starts s) as Hstart.
    destruct (lstrip_suffix (Str.rev_string "" (Str.lstrip chars s)))
      as [pre [Heq _]].
    apply (f_equal (Str.rev_string "")) in Heq.
    rewrite rev_string_involutive, rev_string_append in Heq.
    rewrite Heq in Hstart.
    destruct (Str.rev_string ""
                (Str.lstrip chars (Str.rev_string "" (Str.lstrip chars s))));
      [reflexivity | exact Hstart].
  - rewrite rev_string_involutive. apply lstrip_starts.
Qed.

End Strip.

(** ** Printed integers *)

Lemma string_of_uint_digits (d : Decimal.uint) :
  all_chars Str.is_digit (NilEmpty.string_of_uint d) = true.
Proof.
  induction d; cbn [NilEmpty.string_of_uint all_chars]; try reflexivity;
    now rewrite IHd.
Qed.

Lemma of_int_chars (n : Z) : all_chars is_int_char (Str.of_int n) = true.
Proof.
  unfold Str.of_int, NilEmpty.string_of_int.
  assert (Hd : forall d, all_chars is_int_char (NilEmpty.string_of_uint d) = true).
  { intros d. eapply all_chars_impl; [|apply string_of_uint_digits].
    intros c Hc. unfold is_int_char. now rewrite Hc. }
  destruct (Z.to_int n) as [d|d]; [apply Hd|].
  cbn [all_chars]. now rewrite Hd.
Qed.

Lemma int_char_not_space (c : ascii) :
  is_int_char c = true -> negb (Str.mem_char c Str.whitespace) = true.
Proof.
  destruct c as [[] [] [] [] [] [] [] []]; vm_compute; congruence.
Qed.

Lemma int_char_not_padding (c : ascii) :
  is_int_char c = true -> negb (Str.mem_char c exit_code_padding) = true.
Proof.
  destruct c as [[] [] [] [] [] [] [] []]; vm_compute; congruence.
Qed.

Lemma digit_not_sign (c : ascii) :
  Str.is_digit c = true -> Ascii.eqb c "-" = false /\ Ascii.eqb c "+" = false.
Proof.
  destruct c as [[] [] [] [] [] [] [] []]; vm_compute; intuition congruence.
Qed.

Lemma digits_value_decimal (d : Decimal.uint) (acc : Z) :
  Str.digits_value acc (NilEmpty.string_of_uint d) = Some (decimal_value d acc).
Proof.
  revert acc. induction d; intros acc;
    cbn [NilEmpty.string_of_uint Str.digits_value decimal_value];
    try reflexivity;
    match goal with
    | |- context [Str.is_digit ?c] => change (Str.is_digit c) with true
    end;
    cbv iota; rewrite IHd; reflexivity.
Qed.

Lemma decimal_value_pos (d : Decimal.uint) (a : positive) :
  decimal_value d (Z.pos a) = Z.pos (Pos.of_uint_acc d a).
Proof.
  revert a. induction d; intros a; cbn [decimal_value Pos.of_uint_acc];
    try reflexivity;
    rewrite <- IHd; f_equal; lia.
Qed.

Lemma decimal_value_zero (d : Decimal.uint) :
  decimal_value d 0 = Z.of_N (Pos.of_uint d).
Proof.
  induction d; cbn [decimal_value Pos.of_uint]; try reflexivity;
    try exact IHd; apply decimal_value_pos.
Qed.

Lemma string_of_uint_empty (d : Decimal.uint) :
  NilEmpty.string_of_uint d = "" -> d = Decimal.Nil.
Proof. destruct d; [reflexivity | discriminate ..]. Qed.

(** [int(str(n)) == n] *)
Lemma to_int_of_int (n : Z) : Str.to_int (Str.of_int n) = Some n.
Proof.
  unfold Str.to_int.
  rewrite strip_outside
    by (eapply all_chars_impl; [apply int_char_not_space | apply of_int_chars]).
  unfold Str.of_int, NilEmpty.string_of_int.
  destruct n as [|p|p]; [reflexivity| |]; cbn [Z.to_int].
  - pose proof (string_of_uint_digits (Pos.to_uint p)) as Hdigits.
    pose proof (digits_value_decimal (Pos.to_uint p) 0) as Hvalue.
    destruct (NilEmpty.string_of_uint (Pos.to_uint p)) as [|c s] eqn:Hs.
    + apply string_of_uint_empty in Hs.
      now elim (DecimalPos.Unsigned.to_uint_nonnil p).
    + cbn [all_chars] in Hdigits. apply andb_true_iff in Hdigits as [Hc _].
      destruct (digit_not_sign c Hc) as [-> ->].
      rewrite Hvalue, decimal_value_zero, DecimalPos.Unsigned.of_to.
      reflexivity.
  - change (Ascii.eqb "-" "-") with true. cbv iota.
    pose proof (digits_value_decimal (Pos.to_uint p) 0) as Hvalue.
    destruct (NilEmpty.string_of_uint (Pos.to_uint p)) as [|c s] eqn:Hs.
    + apply string_of_uint_empty in Hs.
      now elim (DecimalPos.Unsigned.to_uint_nonnil p).
    + rewrite Hvalue, decimal_value_zero, DecimalPos.Unsigned.of_to.
      reflexivity.
Qed.

(** ** Exit codes and listings as docker prints them *)

(** X4: when docker prints the exit status of a unit as the quoted
    decimal ['n'] followed by a newline, [container_exit_code] returns
    the integer [n], for every integer, after that one inspection. *)
Theorem container_exit_code_reads_status (w : world) (container : string)
        (t : trace) (n : Z) :
  output_of w t (inspect_command container)
    = Some (Scenario.printed_status (Str.of_int n)) ->
  container_exit_code w container t
  = (Ok n, t +++ [CheckOutput (inspect_command container)]).
Proof.
  intros Hout.
  unfold container_exit_code, subprocess_check_output.
  fold (inspect_command container).
  erewrite bind_ok
    by (erewrite bind_ok by reflexivity; rewrite Hout; reflexivity).
  change (String newline (String cr (String tab
            (String " " (String squote (String dquote EmptyString))))))
    with exit_code_padding.
  change (Scenario.printed_status (Str.of_int n))
    with (String squote "" ++ Str.of_int n ++ String squote (String newline "")).
  rewrite strip_padded; try reflexivity.
  - now rewrite to_int_of_int.
  - eapply all_chars_impl; [apply int_char_not_padding | apply of_int_chars].
Qed.

Lemma container_exit_code_reads_status_witness :
  container_exit_code Scenario.realtime_out "aaa" []
  = (Ok 2%Z, [] +++ [CheckOutput (inspect_command "aaa")]).
Proof.
  apply (container_exit_code_reads_status Scenario.realtime_out "aaa" [] 2).
  reflexivity.
Defined.

Lemma split_line (id rest : string) :
  all_chars (fun c => negb (Ascii.eqb c newline)) id = true ->
  Str.split newline (id ++ String newline rest) = id :: Str.split newline rest.
Proof.
  induction id as [|c id IH]; cbn [all_chars String.append Str.split].
  - intros _. now rewrite Ascii.eqb_refl.
  - intros H. apply andb_true_iff in H as [Hc Hid].
    apply negb_true_iff in Hc. now rewrite Hc, (IH Hid).
Qed.

Lemma space_free_line (c : ascii) :
  negb (Str.mem_char c Str.whitespace) = true ->
  negb (Ascii.eqb c newline) = true.
Proof.
  destruct c as [[] [] [] [] [] [] [] []]; vm_compute; congruence.
Qed.

Lemma units_of_lines (ids : list string) :
  forallb is_unit_id ids = true -> units_of (Scenario.lines ids) = ids.
Proof.
  unfold units_of. induction ids as [|id ids IH]; [reflexivity|].
  cbn [forallb Scenario.lines fold_right]. intros H.
  apply andb_true_iff in H as [Hid Hids].
  unfold is_unit_id in Hid. apply andb_true_iff in Hid as [Hne Hclean].
  fold (Scenario.lines ids).
  rewrite split_line by (eapply all_chars_impl; [apply space_free_line | exact Hclean]).
  cbn [filter]. rewrite Hne. cbn [map].
  now rewrite (strip_outside _ _ Hclean), (IH Hids).
Qed.

(** X5: when the listing prints one unit id per line (ids not empty and
    free of white space), [running_containers] returns exactly these
    ids, in the order printed. *)
Theorem running_containers_reads_listing (w : world) (game : string)
        (t : trace) (ids : list string) :
  forallb is_unit_id ids = true ->
  shell_output_of w t (listing_command game) = Some (Scenario.lines ids) ->
  running_containers w game t
  = (Ok ids, t +++ [CheckOutputShell (listing_command game)]).
Proof.
  intros Hids Hout. rewrite running_containers_eq, Hout.
  now rewrite (units_of_lines ids Hids).
Qed.

Lemma running_containers_reads_listing_witness :
  running_containers Scenario.realtime_out "m1" []
  = (Ok ["aaa"; "bbb"], [] +++ [CheckOutputShell (listing_command "m1")]).
Proof.
  apply (running_containers_reads_listing Scenario.realtime_out "m1" []
           ["aaa"; "bbb"]); reflexivity.
Defined.

(** ** Container names *)

Lemma append_inj_l (a x y : string) : a ++ x = a ++ y -> x = y.
Proof.
  induction a as [|c a IH]; [easy|]. cbn [String.append].
  intros [= H]. now apply IH.
Qed.

Lemma int_chars_prefix (s1 s2 a b : string) :
  all_chars is_int_char s1 = true ->
  all_chars is_int_char s2 = true ->
  s1 ++ String "_" a = s2 ++ String "_" b -> s1 = s2.
Proof.
  revert s2. induction s1 as [|c s1 IH]; intros [|d s2] H1 H2;
    cbn [String.append all_chars] in *.
  - reflexivity.
  - intros [= <- _]. discriminate.
  - intros [= -> _]. discriminate.
  - apply andb_true_iff in H1 as [_ H1]. apply andb_true_iff in H2 as [_ H2].
    intros [= -> H]. f_equal. now apply IH.
Qed.

(** X6: within a match, units of different ordinals get different
    container names, whatever the players' names. *)
Theorem container_names_distinct (lp : launch_params) (i j : Z)
        (p q : Player) :
  container_name_of lp i p = container_name_of lp j q <-> i = j /\
    Str.replace_char " " "_" (name p) = Str.replace_char " " "_" (name q).
Proof.
  unfold container_name_of. split.
  - intros H. apply append_inj_l in H. cbn [String.append] in H.
    injection H as H.
    pose proof (int_chars_prefix _ _ _ _ (of_int_chars i) (of_int_chars j) H)
      as Hij.
    assert (i = j) as ->.
    { pose proof (to_int_of_int i) as Hi. rewrite Hij, to_int_of_int in Hi.
      now injection Hi. }
    split; [reflexivity|].
    apply append_inj_l in H. now injection H.
  - intros [-> ->]. reflexivity.
Qed.

Lemma mem_char_append (c : ascii) (a b : string) :
  Str.mem_char c (a ++ b) = Str.mem_char c a || Str.mem_char c b.
Proof.
  induction a as [|x a IH]; [reflexivity|].
  cbn [String.append Str.mem_char]. now rewrite IH, orb_assoc.
Qed.

Lemma replace_char_removes (old : ascii) (new s : string) :
  Str.mem_char old new = false ->
  Str.mem_char old (Str.replace_char old new s) = false.
Proof.
  intros Hnew. induction s as [|c s IH]; [reflexivity|].
  cbn [Str.replace_char]. rewrite mem_char_append, IH, orb_false_r.
  destruct (Ascii.eqb_spec c old) as [->|Hc]; [exact Hnew|].
  cbn [Str.mem_char]. rewrite orb_false_r.
  destruct (Ascii.eqb_spec old c) as [<-|]; [now elim Hc | reflexivity].
Qed.

Lemma all_chars_mem (f : ascii -> bool) (c : ascii) (s : string) :
  all_chars f s = true -> f c = false -> Str.mem_char c s = false.
Proof.
  intros Hs Hc. induction s as [|x s IH]; [reflexivity|].
  cbn [all_chars] in Hs. apply andb_true_iff in Hs as [Hx Hs].
  cbn [Str.mem_char]. rewrite (IH Hs), orb_false_r.
  destruct (Ascii.eqb_spec c x) as [<-|]; [congruence | reflexivity].
Qed.

(** X7: the spaces of a player's name never reach the container name:
    the name holds a space only if the match name does. *)
Theorem container_name_spaces (lp : launch_params) (nth_player : Z)
        (player : Player) :
  Str.mem_char " " (container_name_of lp nth_player player)
  = Str.mem_char " " (game_name lp).
Proof.
  unfold container_name_of. rewrite !mem_char_append.
  rewrite (all_chars_mem is_int_char " " _ (of_int_chars nth_player))
    by reflexivity.
  rewrite replace_char_removes by reflexivity.
  cbn [Str.mem_char]. cbn. now rewrite !orb_false_r.
Qed.

(** ** The environment of a unit *)

Lemma dict_get_set_same (key value : string) (d : list (string * string)) :
  dict_get key (dict_set key value d) = Some value.
Proof.
  induction d as [|[k v] d IH]; cbn [dict_set dict_get].
  - now rewrite String.eqb_refl.
  - destruct (String.eqb k key) eqn:Hk; cbn [dict_get]; now rewrite Hk.
Qed.

Lemma dict_get_set_other (key key' value : string) (d : list (string * string)) :
  key <> key' ->
  dict_get key' (dict_set key value d) = dict_get key' d.
Proof.
  intros Hne. induction d as [|[k v] d IH]; cbn [dict_set dict_get].
  - destruct (String.eqb_spec key key'); [contradiction | reflexivity].
  - destruct (String.eqb_spec k key) as [->|Hk]; cbn [dict_get].
    + destruct (String.eqb_spec key key'); [contradiction | reflexivity].
    + now rewrite IH.
Qed.

Lemma dict_set_keys (key value : string) (d : list (string * string)) (k : string) :
  In k (map fst (dict_set key value d)) -> k = key \/ In k (map fst d).
Proof.
  induction d as [|[k0 v0] d IH]; cbn [dict_set map fst In].
  - intuition.
  - destruct (String.eqb_spec k0 key) as [->|Hk]; cbn [map fst In]; intuition.
Qed.

Lemma dict_set_nodup (key value : string) (d : list (string * string)) :
  NoDup (map fst d) -> NoDup (map fst (dict_set key value d)).
Proof.
  induction d as [|[k0 v0] d IH]; cbn [dict_set map fst]; intros Hd.
  - constructor; [easy | constructor].
  - destruct (String.eqb_spec k0 key) as [->|Hk]; cbn [map fst]; [exact Hd|].
    inversion Hd as [|? ? Hnotin Hrest]; subst. constructor; [|now apply IH].
    intros Hin. apply dict_set_keys in Hin as [->|Hin]; [now elim Hk | easy].
Qed.

(** X8: the environment handed to a unit names every variable once:
    the optional entries (bot file, debugger, timeout) replace or extend
    the sixteen fixed ones, they never repeat a key. *)
Theorem launch_env_keys_distinct (player : Player) (nth_player num_players : Z)
        (lp : launch_params) :
  NoDup (map fst (launch_env player nth_player num_players lp)).
Proof.
  unfold launch_env. cbv zeta.
  destruct (kind player) as [|b], (timeout lp) as [limit|];
    try destruct (javaDebugPort b) as [port|];
    repeat apply dict_set_nodup;
    cbn [map fst]; repeat constructor; cbn [In]; intuition discriminate.
Qed.

(** X9: the optional entries of the environment.  [JAVA_DEBUG] is [1]
    exactly for a bot with a debugger port, and then [JAVA_DEBUG_PORT]
    is that port; [BOT_FILE] and [BOT_BWAPI] are set exactly for bots;
    [PLAY_TIMEOUT] is set exactly when a timeout is given; and
    [TM_ALLOW_USER_INPUT] is [1] exactly for a human. *)
Theorem launch_env_optional_entries (player : Player)
        (nth_player num_players : Z) (lp : launch_params) :
  let env := launch_env player nth_player num_players lp in
  dict_get "JAVA_DEBUG" env
    = Some (match debug_port_of player with Some _ => "1" | None => "0" end)
  /\ dict_get "JAVA_DEBUG_PORT" env = option_map Str.of_int (debug_port_of player)
  /\ dict_get "BOT_FILE" env = option_map bot_basefilename (bot_of player)
  /\ dict_get "BOT_BWAPI" env = option_map bwapi_version (bot_of player)
  /\ dict_get "PLAY_TIMEOUT" env = option_map Str.of_int (timeout lp)
  /\ dict_get "TM_ALLOW_USER_INPUT" env
     = Some (match bot_of player with Some _ => "0" | None => "1" end).
Proof.
  unfold launch_env, debug_port_of, bot_of, is_bot. cbv zeta.
  destruct (kind player) as [|b], (timeout lp) as [limit|];
    try destruct (javaDebugPort b) as [port|];
    cbn [option_map negb flag];
    repeat split;
    repeat first
      [ rewrite dict_get_set_same
      | rewrite dict_get_set_other by discriminate ];
    reflexivity.
Qed.

(** ** The launch command, further *)

Lemma contains_run_end {A} (front mid : list A) : contains_run mid (front +++ mid).
Proof. exists front, []. now rewrite app_nil_r. Qed.

Lemma contains_run_app {A} (mid l rest : list A) :
  contains_run mid l -> contains_run mid (l +++ rest).
Proof.
  intros [front [back ->]]. exists front, (back +++ rest).
  now rewrite <- !app_assoc.
Qed.

(** X10: the debugger port of a bot is published: when a bot has a
    debugger port, the launch command maps that port of the host to the
    same port of the unit. *)
Theorem debug_port_published (player : Player) (nth_player num_players : Z)
        (lp : launch_params) (port : Z) :
  debug_port_of player = Some port ->
  contains_run ["-p"; Str.of_int port ++ ":" ++ Str.of_int port]
               (launch_cmd player nth_player num_players lp).
Proof.
  unfold debug_port_of, launch_cmd, is_bot. cbv zeta.
  destruct (kind player) as [|b]; [discriminate|]. intros ->.
  repeat first [apply contains_run_end | apply contains_run_app].
Qed.

Lemma debug_port_published_witness :
  contains_run ["-p"; Str.of_int 5005 ++ ":" ++ Str.of_int 5005]
               (launch_cmd debug_bot 1 2 Scenario.m1).
Proof.
  apply (debug_port_published debug_bot 1 2 Scenario.m1 5005). reflexivity.
Defined.

(** X11: the role of a unit.  In a headless match the command ends with
    the peer-discovery flag followed by [--host --map <map>] for ordinal
    0 and by [--join] for every other ordinal; in a headful match it
    ends with [--headful] and publishes the viewer port of the
    ordinal. *)
Theorem entrypoint_role (player : Player) (nth_player num_players : Z)
        (lp : launch_params) :
  exists front,
    launch_cmd player nth_player num_players lp
    = front +++
        (if headless lp then
           "--lan" ::
             (if (nth_player =? 0)%Z
              then ["--host"; "--map"; "/app/sc/maps/" ++ map_name lp]
              else ["--join"])
         else ["--headful"])
    /\ (headless lp = false ->
        contains_run ["-p"; Str.of_int (vnc_base_port lp + nth_player) ++ ":5900"]
                     front).
Proof.
  unfold launch_cmd, is_bot. cbv zeta.
  destruct (headless lp); cbn [negb].
  - match goal with
    | |- exists front, ?cmd +++ _ = _ /\ _ =>
        exists (cmd +++ ["--game"; game_name lp; "--name"; name player;
                         "--race"; race_value player])
    end.
    split; [|discriminate].
    apply (app_assoc _ ["--game"; game_name lp; "--name"; name player;
                        "--race"; race_value player] ("--lan" :: _)).
  - eexists. split; [reflexivity|]. intros _.
    destruct (kind player) as [|b]; [|destruct (javaDebugPort b)];
      repeat first [apply contains_run_end | apply contains_run_app].
Qed.

(** ** Launching the units of a match *)

Lemma start_entry_app (t : trace) (lp : launch_params) (nth_player : Z)
      (player : Player) :
  start_entry t lp nth_player player = t +++ start_entry [] lp nth_player player.
Proof.
  unfold start_entry. destruct (kind player); [now rewrite app_nil_r | reflexivity].
Qed.

(** The two ways in which [launch_image] ends, with the calls made. *)
Lemma launch_image_run (w : world) (player : Player)
      (nth_player num_players : Z) (lp : launch_params) (t : trace) :
  let cmd := launch_cmd player nth_player num_players lp in
  let lookup := lookup_command lp nth_player player in
  let started := start_entry t lp nth_player player +++ [SubprocessCall cmd] in
  launch_image w player nth_player num_players lp t
  = (Ok tt, started +++ [CheckOutput lookup])
  \/ launch_image w player nth_player num_players lp t
     = (Raise (CalledProcessError lookup), started +++ [CheckOutput lookup])
  \/ launch_image w player nth_player num_players lp t
     = (Raise (DockerException (launch_failure_message lp nth_player player)),
        started).
Proof.
  unfold launch_image, start_entry, lookup_command, launch_failure_message.
  unfold subprocess_call, subprocess_check_output, os_makedirs.
  unfold bind, emit, ret, raise.
  destruct (kind player) as [|b];
    (destruct (call_status w _ _ =? 0)%Z; [|now right; right]);
    destruct (output_of w _ _); [now left | now right; left
                                 | now left | now right; left].
Qed.

Section LaunchAll.

Variables (w : world) (lp : launch_params) (n : nat).

Let launch (ip : nat * Player) : M unit :=
  launch_image w (snd ip) (Z.of_nat (fst ip)) (Z.of_nat n) lp.

Lemma launch_events_run (ip : nat * Player) (t : trace) :
  launch ip t = (Ok tt, t +++ launch_events lp n ip)
  \/ launch ip t
     = (Raise (CalledProcessError (lookup_command lp (Z.of_nat (fst ip)) (snd ip))),
        t +++ launch_events lp n ip)
  \/ launch ip t
     = (Raise (DockerException
                 (launch_failure_message lp (Z.of_nat (fst ip)) (snd ip))),
        t +++ failed_start_events lp n ip).
Proof.
  unfold launch, launch_events, failed_start_events.
  pose proof (launch_image_run w (snd ip) (Z.of_nat (fst ip)) (Z.of_nat n) lp t)
    as H.
  cbv zeta in H. rewrite start_entry_app, <- !app_assoc in H.
  exact H.
Qed.

Lemma launches_in_order (ips : list (nat * Player)) (t t' : trace) :
  for_each ips launch t = (Ok tt, t') ->
  t' = t +++ flat_map (launch_events lp n) ips.
Proof.
  revert t. induction ips as [|ip ips IH]; intros t; cbn [for_each flat_map].
  - intros [= <-]. now rewrite app_nil_r.
  - rewrite bind_eq.
    destruct (launch_events_run ip t) as [H|[H|H]]; rewrite H;
      [|discriminate ..].
    intros Hrest. apply IH in Hrest. now rewrite Hrest, app_assoc.
Qed.

Lemma launches_stop (ips : list (nat * Player)) (t t' : trace) (e : exn) :
  for_each ips launch t = (Raise e, t') ->
  exists done ip rest,
    ips = done +++ ip :: rest
    /\ ((e = DockerException
               (launch_failure_message lp (Z.of_nat (fst ip)) (snd ip))
         /\ t' = t +++ flat_map (launch_events lp n) done
                   +++ failed_start_events lp n ip)
        \/ (e = CalledProcessError
                  (lookup_command lp (Z.of_nat (fst ip)) (snd ip))
            /\ t' = t +++ flat_map (launch_events lp n) done
                      +++ launch_events lp n ip)).
Proof.
  revert t. induction ips as [|ip ips IH]; intros t; cbn [for_each].
  - discriminate.
  - rewrite bind_eq.
    destruct (launch_events_run ip t) as [H|[H|H]]; rewrite H.
    + intros Hrest. destruct (IH _ Hrest) as [done [ip' [rest [-> Hcase]]]].
      exists (ip :: done), ip', rest. split; [reflexivity|].
      cbn [flat_map]. rewrite <- !app_assoc in Hcase. rewrite <- !app_assoc.
      exact Hcase.
    + intros [= <- <-]. exists [], ip, ips. split; [reflexivity|]. now right.
    + intros [= <- <-]. exists [], ip, ips. split; [reflexivity|]. now left.
Qed.

End LaunchAll.

(** X12: when every launch succeeds, the units were launched in player
    order, ordinal 0 first, each by one create+start call followed by
    one lookup by name (preceded, for a bot, by the creation of its
    write directory), and nothing else was called in between. *)
Theorem launch_all_in_order (w : world) (players : list Player)
        (lp : launch_params) (t t' : trace) :
  launch_all w players lp t = (Ok tt, t') ->
  t' = t +++ flat_map (launch_events lp (List.length players))
                      (enumerate players).
Proof.
  unfold launch_all. apply launches_in_order.
Qed.

Lemma launch_all_in_order_witness :
  snd (launch_all Scenario.realtime_out [Scenario.alice; debug_bot] Scenario.m1 [])
  = [] +++ flat_map (launch_events Scenario.m1 2)
                    (enumerate [Scenario.alice; debug_bot]).
Proof.
  apply (launch_all_in_order Scenario.realtime_out [Scenario.alice; debug_bot]
                             Scenario.m1 []).
  vm_compute. reflexivity.
Defined.

(** X13: launching stops at the first failure.  When [launch_all]
    raises, the players before the failing one were launched in full,
    the failing one accounts for the last calls (a create+start call
    with a nonzero status, or a lookup that failed), and no call is made
    for any later player. *)
Theorem launch_all_stops_at_failure (w : world) (players : list Player)
        (lp : launch_params) (t t' : trace) (e : exn) :
  launch_all w players lp t = (Raise e, t') ->
  exists done ip rest,
    enumerate players = done +++ ip :: rest
    /\ ((e = DockerException
               (launch_failure_message lp (Z.of_nat (fst ip)) (snd ip))
         /\ t' = t +++ flat_map (launch_events lp (List.length players)) done
                   +++ failed_start_events lp (List.length players) ip)
        \/ (e = CalledProcessError
                  (lookup_command lp (Z.of_nat (fst ip)) (snd ip))
            /\ t' = t +++ flat_map (launch_events lp (List.length players)) done
                      +++ launch_events lp (List.length players) ip)).
Proof.
  unfold launch_all. apply launches_stop.
Qed.

Lemma launch_all_stops_at_failure_witness :
  exists done ip rest,
    enumerate [Scenario.alice; Scenario.bob; debug_bot] = done +++ ip :: rest
    /\ ((DockerException (launch_failure_message Scenario.m1 1 Scenario.bob)
         = DockerException
             (launch_failure_message Scenario.m1 (Z.of_nat (fst ip)) (snd ip))
         /\ snd (launch_all second_start_fails
                            [Scenario.alice; Scenario.bob; debug_bot]
                            Scenario.m1 [])
            = [] +++ flat_map (launch_events Scenario.m1 3) done
                 +++ failed_start_events Scenario.m1 3 ip)
        \/ (DockerException (launch_failure_message Scenario.m1 1 Scenario.bob)
            = CalledProcessError
                (lookup_command Scenario.m1 (Z.of_nat (fst ip)) (snd ip))
            /\ snd (launch_all second_start_fails
                               [Scenario.alice; Scenario.bob; debug_bot]
                               Scenario.m1 [])
               = [] +++ flat_map (launch_events Scenario.m1 3) done
                    +++ launch_events Scenario.m1 3 ip)).
Proof.
  apply (launch_all_stops_at_failure
           second_start_fails [Scenario.alice; Scenario.bob; debug_bot]
           Scenario.m1 []).
  vm_compute. reflexivity.
Defined.

(** ** The whole match *)

Section MatchExceptions.

Variable w : world.
Variable E : exn -> Prop.

Hypothesis E_process : forall argv, E (CalledProcessError argv).
Hypothesis E_callback : forall msg, E (CallbackError msg).
Hypothesis E_value : E ValueError.
Hypothesis E_docker : forall msg, E (DockerException msg).
Hypothesis E_lingering : E (ContainerException lingering_message).
Hypothesis E_realtime : E (RealtimeOutedException realtime_message).
Hypothesis E_error_exit : E (ContainerException error_exit_message).

Let any {T} : T -> Prop := fun _ => True.

Lemma monitor_game_triple (fuel : nat) (players : list Player)
      (lp : launch_params) (show_all read_overwrite : bool) :
  triple any any E (monitor_game w fuel players lp show_all read_overwrite).
Proof.
  unfold monitor_game.
  eapply triple_bind with (Q1 := any); [apply triple_emit; easy|].
  intros _ _. eapply triple_bind with (Q1 := any).
  { eapply triple_weaken; [| | |apply running_containers_triple];
      [easy | easy | | ]; [intros e He; exact He | exact E_process]. }
  intros start_containers _.
  destruct (negb _); [apply triple_raise, E_docker|].
  now apply await_game_triple.
Qed.

(** With at least one player, [launch_game] raises nothing outside [E]. *)
Lemma launch_game_triple (fuel : nat) (players : list Player)
      (lp : launch_params) (show_all read_overwrite : bool) :
  players <> [] ->
  triple any any E (launch_game w fuel players lp show_all read_overwrite).
Proof.
  intros Hplayers. unfold launch_game.
  destruct players as [|p players]; [easy|]. cbn [List.length Nat.eqb].
  eapply triple_bind with (Q1 := any).
  { eapply triple_weaken; [| | |apply (prelude_triple w lp E)]; easy. }
  intros existing_files _. eapply triple_bind with (Q1 := any).
  { eapply triple_weaken; [| | |apply (remove_files_triple E)]; easy. }
  intros _ _. eapply triple_bind with (Q1 := any).
  { eapply triple_weaken; [| | |apply (launch_all_triple w E)]; easy. }
  intros _ _. apply monitor_game_triple.
Qed.

End MatchExceptions.

(** X14: [launch_game] raises [GameException] if and only if the list of
    players is empty, and then it has made no call at all: nothing is
    searched, removed or launched. *)
Theorem game_exception_iff_no_player (w : world) (fuel : nat)
        (players : list Player) (lp : launch_params)
        (show_all read_overwrite : bool) (t : trace) :
  ((exists msg,
       fst (launch_game w fuel players lp show_all read_overwrite t)
       = Raise (GameException msg))
   <-> players = [])
  /\ launch_game w fuel [] lp show_all read_overwrite t
     = (Raise (GameException "At least one player must be specified"), t).
Proof.
  split; [|reflexivity]. split.
  - intros [msg Hraise].
    destruct players as [|p players]; [reflexivity|]. exfalso.
    destruct (launch_game w fuel (p :: players) lp show_all read_overwrite t)
      as [r t'] eqn:Hrun.
    assert (Htriple :
      triple (fun _ => True) (fun _ => True)
             (fun e => forall m, e <> GameException m)
             (launch_game w fuel (p :: players) lp show_all read_overwrite))
      by (apply launch_game_triple; easy).
    destruct (Htriple _ _ _ Hrun) as [_ Hr].
    cbn [fst] in Hraise. subst r. now elim (Hr msg).
  - intros ->. now exists "At least one player must be specified".
Qed.



Lemma bind_ok_inv {A B} (m : M A) (k : A -> M B) (t t' : trace) (b : B) :
  bind m k t = (Ok b, t') ->
  exists a t1, m t = (Ok a, t1) /\ k a t1 = (Ok b, t').
Proof.
  rewrite bind_eq. destruct (m t) as [[a|e|] t1]; [|discriminate ..].
  intros H. now exists a, t1.
Qed.

Lemma launch_viewers_eq (players : list Player) (lp : launch_params)
      (show_all : bool) (t : trace) :
  launch_viewers players lp show_all t
  = (Ok tt, t +++ viewer_events players lp show_all).
Proof.
  unfold launch_viewers, viewer_events. destruct (negb (headless lp)).
  - unfold launch_vnc_viewer. now rewrite for_each_emit.
  - unfold ret. now rewrite app_nil_r.
Qed.

Lemma cleanup_containers_eq (w : world) (containers : list string) (t : trace) :
  cleanup_containers w containers t
  = (Ok tt, t +++ removal_events containers).
Proof.
  unfold cleanup_containers, removal_events.
  destruct containers; [|reflexivity].
  unfold ret. now rewrite app_nil_r.
Qed.

Lemma copy_back_eq (lp : launch_params) (nps : list (nat * Player)) (t : trace) :
  for_each nps
           (fun np =>
              match kind (snd np) with
              | BotPlayer b =>
                  copy_tree
                    (write_dir b ++ "/" ++ game_name lp ++ "_"
                       ++ Str.of_int (Z.of_nat (fst np)))
                    (read_dir b)
              | HumanPlayer => ret tt
              end) t
  = (Ok tt,
     t +++ flat_map (fun np =>
                       match kind (snd np) with
                       | BotPlayer b =>
                           [CopyTree (write_dir b ++ "/" ++ game_name lp ++ "_"
                                        ++ Str.of_int (Z.of_nat (fst np)))
                                     (read_dir b)]
                       | HumanPlayer => []
                       end) nps).
Proof.
  revert t. induction nps as [|np nps IH]; intros t; cbn [for_each flat_map].
  - unfold ret. now rewrite app_nil_r.
  - rewrite bind_eq. destruct (kind (snd np)) as [|b].
    + unfold ret at 1. now rewrite IH.
    + unfold copy_tree at 1, emit at 1. rewrite IH. now rewrite <- app_assoc.
Qed.

(** X16: a match that [monitor_game] ends normally.  The launch check
    listed as many units as there are players; after the viewers and the
    polls, in which nothing is inspected or removed, exactly the units
    of that first listing are removed, in one call; the bot files are
    copied back after the removal, for bots only, in player order, and
    only with [read_overwrite]. *)
Theorem finished_match_trace (w : world) (fuel : nat) (players : list Player)
        (lp : launch_params) (show_all read_overwrite : bool) (t t' : trace) :
  monitor_game w fuel players lp show_all read_overwrite t = (Ok tt, t') ->
  exists out polls,
    shell_output_of w (t +++ [Sleep 1]) (listing_command (game_name lp))
      = Some out
    /\ List.length (units_of out) = List.length players
    /\ Forall quiet polls
    /\ t' = loop_entry t players lp show_all
              +++ polls
              +++ removal_events (units_of out)
              +++ (if read_overwrite then copy_events players lp else []).
Proof.
  intros Hrun.
  destruct (shell_output_of w (t +++ [Sleep 1]) (listing_command (game_name lp)))
    as [out|] eqn:Hout.
  2:{ unfold monitor_game in Hrun.
      erewrite bind_ok in Hrun by reflexivity.
      erewrite bind_raise in Hrun
        by (rewrite running_containers_eq, Hout; reflexivity).
      discriminate. }
  rewrite (monitor_game_checked w fuel players lp show_all read_overwrite t out Hout)
    in Hrun.
  destruct (Nat.eqb_spec (List.length (units_of out)) (List.length players))
    as [Hlen|]; [|discriminate].
  exists out. unfold await_game in Hrun.
  erewrite bind_ok in Hrun by apply launch_viewers_eq.
  erewrite bind_ok in Hrun by reflexivity.
  apply bind_ok_inv in Hrun as [containers [t2 [Hloop Hrun]]].
  assert (Htriple :
    triple quiet (fun containers => containers = []) (fun _ => True)
           (poll_loop w fuel (game_name lp)
              (clock w ((t +++ [Sleep 1; CheckOutputShell (listing_command (game_name lp))])
                          +++ viewer_events players lp show_all))))
    by (apply poll_loop_triple; easy).
  destruct (Htriple _ _ _ Hloop) as [[evs [-> Hquiet]] ->].
  cbn [map_m] in Hrun. erewrite bind_ok in Hrun by reflexivity.
  erewrite bind_ok in Hrun by apply cleanup_containers_eq.
  change (exit_code_error []) with (@None exn) in Hrun. cbv iota in Hrun.
  exists (TimeTime :: evs). split; [reflexivity|]. split; [exact Hlen|].
  split; [constructor; [split; reflexivity | exact Hquiet]|].
  unfold loop_entry.
  destruct read_overwrite.
  - unfold enumerate in Hrun. rewrite copy_back_eq in Hrun.
    injection Hrun as <-. unfold copy_events, enumerate.
    rewrite <- !app_assoc. reflexivity.
  - injection Hrun as <-. rewrite <- !app_assoc. cbn [List.app].
    now rewrite app_nil_r.
Qed.

Lemma finished_match_trace_witness :
  exists out polls,
    shell_output_of Scenario.realtime_out ([] +++ [Sleep 1])
                    (listing_command (game_name Scenario.m1)) = Some out
    /\ List.length (units_of out) = List.length [Scenario.alice; debug_bot]
    /\ Forall quiet polls
    /\ snd (monitor_game Scenario.realtime_out 5 [Scenario.alice; debug_bot]
                         Scenario.m1 false true [])
       = loop_entry [] [Scenario.alice; debug_bot] Scenario.m1 false
           +++ polls
           +++ removal_events (units_of out)
           +++ (if true then copy_events [Scenario.alice; debug_bot] Scenario.m1
                else []).
Proof.
  apply (finished_match_trace
           Scenario.realtime_out 5 [Scenario.alice; debug_bot] Scenario.m1
           false true []).
  vm_compute. reflexivity.
Defined.

(** X17: the poll loop has no time limit of its own.  As long as every
    listing shows two or more units and the caller's callback returns,
    each round is one listing, one clock reading and one call of the
    callback, and the loop neither returns nor raises, whatever the
    clock shows. *)
Theorem poll_loop_keeps_polling (w : world) (game : string) :
  (forall t, exists out,
      shell_output_of w t (listing_command game) = Some out
      /\ 2 <= List.length (units_of out)) ->
  (forall t, callback_result w t = None) ->
  forall fuel running_time t,
    poll_loop w fuel game running_time t
    = (Unfinished, t +++ List.concat (repeat (poll_events game) fuel)).
Proof.
  intros Htwo Hcb. induction fuel as [|fuel IH]; intros running_time t.
  - cbn. unfold unfinished. now rewrite app_nil_r.
  - cbn [poll_loop repeat List.concat].
    destruct (Htwo t) as [out [Hout Hlen]].
    erewrite bind_ok by (rewrite running_containers_eq, Hout; reflexivity).
    destruct (List.length (units_of out)) as [|[|k]]; [lia | lia |].
    cbn [Nat.eqb Nat.leb].
    erewrite bind_ok by reflexivity.
    erewrite bind_ok by reflexivity.
    cbv iota. unfold wait_callback.
    erewrite bind_ok
      by (erewrite bind_ok by reflexivity; rewrite Hcb; reflexivity).
    rewrite IH. unfold poll_events. now rewrite <- !app_assoc.
Qed.

Lemma poll_loop_keeps_polling_witness :
  poll_loop two_units_forever 40 "m1" (inject_Z 0) []
  = (Unfinished, [] +++ List.concat (repeat (poll_events "m1") 40)).
Proof.
  apply (poll_loop_keeps_polling two_units_forever "m1").
  - intros t. exists (Scenario.lines ["aaa"; "bbb"]). split; [reflexivity|].
    cbn. lia.
  - reflexivity.
Defined.

(** ** Image removal and docker-machine *)

Lemma remove_game_image_eq (w : world) (image_name : string) (t : trace) :
  let listed := t +++ [CheckOutputShell (images_command image_name)] in
  let removal := shell_argv (rmi_command image_name) in
  remove_game_image w image_name t
  = match shell_output_of w t (images_command image_name) with
    | None => (SysExit 1, listed)
    | Some out =>
        if String.eqb out "" then (Finished (Ok tt), listed)
        else ((if (call_status w listed removal =? 0)%Z
               then Finished (Ok tt) else SysExit 1),
              listed +++ [SubprocessCall removal])
    end.
Proof.
  unfold remove_game_image, check_output, call, subprocess_check_output_shell,
    subprocess_call, bind, emit, ret, raise.
  destruct (shell_output_of w t (images_command image_name)) as [out|];
    [|reflexivity].
  destruct (String.eqb out ""); [reflexivity|]. cbn [negb].
  destruct (call_status w _ _ =? 0)%Z; reflexivity.
Qed.

(** X18: [remove_game_image] either returns or ends the process with
    status 1, it never raises.  It lists the image first; the forced
    removal is run exactly when the listing completes and prints
    something; the process is ended exactly when the listing fails or
    the removal that was run completes with a nonzero status. *)
Theorem remove_game_image_outcome (w : world) (image_name : string) (t : trace) :
  let listing := CheckOutputShell (images_command image_name) in
  let removal := shell_argv (rmi_command image_name) in
  let listed := shell_output_of w t (images_command image_name) in
  let r := remove_game_image w image_name t in
  (fst r = Finished (Ok tt) \/ fst r = SysExit 1)
  /\ (snd r = t +++ [listing; SubprocessCall removal]
      <-> exists out, listed = Some out /\ out <> "")
  /\ (snd r = t +++ [listing] <-> listed = None \/ listed = Some "")
  /\ (fst r = SysExit 1
      <-> listed = None
          \/ exists out, listed = Some out /\ out <> ""
                         /\ call_status w (t +++ [listing]) removal <> 0%Z).
Proof.
  cbv zeta. rewrite remove_game_image_eq. cbv zeta.
  destruct (shell_output_of w t (images_command image_name)) as [out|].
  - destruct (String.eqb_spec out "") as [->|Hout]; cbn [fst snd].
    + repeat split; try (now left); try (now right); try easy.
      * intros H. apply app_inv_head in H. discriminate.
      * now intros [out [[= <-] Hne]].
      * intros [H|[out [[= <-] [Hne _]]]]; [discriminate | now elim Hne].
    + rewrite <- app_assoc. cbn [List.app].
      destruct (Z.eqb_spec
                  (call_status w (t +++ [CheckOutputShell (images_command image_name)])
                               (shell_argv (rmi_command image_name))) 0)
        as [Hz|Hnz].
      * repeat split; try (now left); try easy.
        -- now exists out.
        -- intros H. apply app_inv_head in H. discriminate.
        -- intros [H|[= H]]; [discriminate | now elim Hout].
        -- intros [H|[out' [[= <-] [_ Hne]]]]; [discriminate | now elim Hne].
      * repeat split; try (now right); try easy.
        -- now exists out.
        -- intros H. apply app_inv_head in H. discriminate.
        -- intros [H|[= H]]; [discriminate | now elim Hout].
        -- intros _. right. now exists out.
  - cbn [fst snd].
    repeat split; try (now left); try (now right); try easy.
    + intros H. apply app_inv_head in H. discriminate.
    + now intros [out [H _]].
Qed.

Lemma dockermachine_ip_eq (w : world) (t : trace) :
  let checked := t +++ [CheckOutput ["docker-machine"; "version"]] in
  dockermachine_ip w t
  = match output_of w t ["docker-machine"; "version"] with
    | None => (None, checked)
    | Some _ =>
        (option_map (Str.strip Str.whitespace)
                    (output_of w checked ["docker-machine"; "ip"]),
         checked +++ [CheckOutput ["docker-machine"; "ip"]])
    end.
Proof.
  unfold dockermachine_ip, check_dockermachine, subprocess_check_output,
    bind, emit, ret, raise.
  destruct (output_of w t ["docker-machine"; "version"]) as [v|];
    [|reflexivity].
  cbn [negb]. destruct (output_of w _ ["docker-machine"; "ip"]); reflexivity.
Qed.

(** X19: [dockermachine_ip] never raises.  It returns no address
    exactly when [docker-machine version] or [docker-machine ip] fails;
    when the version check fails, the address is not even asked for;
    and an address it returns is the output of [docker-machine ip]
    with no white space left at either end. *)
Theorem dockermachine_ip_outcome (w : world) (t : trace) :
  let version := ["docker-machine"; "version"] in
  let ip := ["docker-machine"; "ip"] in
  let r := dockermachine_ip w t in
  (fst r = None
   <-> output_of w t version = None
       \/ output_of w (t +++ [CheckOutput version]) ip = None)
  /\ (snd r = t +++ [CheckOutput version] <-> output_of w t version = None)
  /\ (forall address,
         fst r = Some address ->
         Some address
         = option_map (Str.strip Str.whitespace)
                      (output_of w (t +++ [CheckOutput version]) ip)
         /\ starts_in Str.whitespace address = false
         /\ ends_in Str.whitespace address = false).
Proof.
  cbv zeta. rewrite dockermachine_ip_eq. cbv zeta.
  destruct (output_of w t ["docker-machine"; "version"]) as [v|].
  - destruct (output_of w (t +++ [CheckOutput ["docker-machine"; "version"]])
                        ["docker-machine"; "ip"]) as [out|];
      cbn [fst snd option_map].
    + split; [split; [discriminate | intros [H|H]; discriminate]|].
      split.
      * split; [|discriminate].
        intros H. rewrite <- app_assoc in H. apply app_inv_head in H.
        discriminate.
      * intros address [= <-]. split; [reflexivity | apply strip_clean].
    + split; [split; [intros _; now right | reflexivity]|].
      split; [|discriminate].
      split; [|discriminate].
      intros H. rewrite <- app_assoc in H. apply app_inv_head in H.
      discriminate.
  - cbn [fst snd].
    split; [split; [intros _; now left | reflexivity]|].
    split; [split; reflexivity | discriminate].
Qed.

(** ** Files of an earlier match *)

(** X20: with at least one player, [launch_game] begins by asking the
    four finders (logs, replays, results, frames) for files of an
    earlier match of the same name and removes every file they report,
    in that order, before anything else is called; the launches come
    after. *)
Theorem stale_files_removed_first (w : world) (fuel : nat)
        (players : list Player) (lp : launch_params)
        (show_all read_overwrite : bool) (t : trace) :
  let logs_q := FindFiles "find_logs" (log_dir lp) (game_name lp) in
  let replays_q := FindFiles "find_replays" (map_dir lp) (game_name lp) in
  let results_q := FindFiles "find_results" (log_dir lp) (game_name lp) in
  let frames_q := FindFiles "find_frames" (log_dir lp) (game_name lp) in
  let logs := files_found w t "find_logs" (log_dir lp) (game_name lp) in
  let replays :=
    files_found w (t +++ [logs_q]) "find_replays" (map_dir lp) (game_name lp) in
  let results :=
    files_found w (t +++ [logs_q; replays_q]) "find_results" (log_dir lp)
                (game_name lp) in
  let frames :=
    files_found w (t +++ [logs_q; replays_q; results_q]) "find_frames"
                (log_dir lp) (game_name lp) in
  players <> [] ->
  exists rest,
    snd (launch_game w fuel players lp show_all read_overwrite t)
    = t +++ [logs_q; replays_q; results_q; frames_q]
        +++ map Remove (logs +++ replays +++ results +++ frames)
        +++ rest.
Proof.
  cbv zeta. intros Hplayers. unfold launch_game.
  destruct players as [|p players]; [easy|]. cbn [List.length Nat.eqb].
  erewrite bind_ok.
  2:{ unfold find_files, bind, emit, ret. rewrite <- !app_assoc.
      cbn [List.app]. reflexivity. }
  erewrite bind_ok by (unfold os_remove; apply for_each_emit).
  match goal with
  | |- context [bind ?m ?k ?t0] =>
      destruct (bind m k t0) as [r t'] eqn:Hrun;
      assert (Htriple : triple (fun _ => True) (fun _ => True) (fun _ => True)
                               (bind m k))
  end.
  { eapply triple_bind with (Q1 := fun _ => True).
    - eapply triple_weaken; [| | |apply (launch_all_triple w (fun _ => True))];
        easy.
    - intros _ _. now apply monitor_game_triple. }
  destruct (Htriple _ _ _ Hrun) as [[evs [-> _]] _].
  exists evs. cbn [snd]. now rewrite <- !app_assoc.
Qed.

Lemma stale_files_removed_first_witness :
  exists rest,
    snd (launch_game with_stale_files 5 [Scenario.alice; Scenario.bob]
                     Scenario.m1 false false [])
    = [] +++ [FindFiles "find_logs" "/tmp/logs" "m1";
              FindFiles "find_replays" "/tmp/maps" "m1";
              FindFiles "find_results" "/tmp/logs" "m1";
              FindFiles "find_frames" "/tmp/logs" "m1"]
         +++ map Remove (["/tmp/logs/m1_0.log"] +++ ["/tmp/maps/m1.rep"]
                           +++ [] +++ [])
         +++ rest.
Proof.
  apply (stale_files_removed_first
           with_stale_files 5 [Scenario.alice; Scenario.bob] Scenario.m1
           false false []).
  discriminate.
Defined.
